(** * python_tricks, chapter 2: context managers and assertions

    A shallow embedding of [chapter_2/context_managers.py] and of the
    assertion caveat at the end of [chapter_2/assertions.py].

    Python code that touches the file system is written in a small
    state-and-exception monad [Py]; the [with] statement and [try/finally]
    are combinators of that monad; the classes keep their names and their
    methods live in a module per class. *)

From Stdlib Require Import ZArith Lia Floats.
From stdpp Require Import base option list strings pretty gmap.

Open Scope string_scope.
Open Scope list_scope.
Set Warnings "-register-all".

(** ** Python values

    The values the modelled expressions evaluate to. *)
Inductive value : Type :=
| VNone
| VBool (b : bool)
| VInt (n : Z)
| VStr (s : string)
| VTuple (items : list value).

(** ** Exceptions and outcomes *)

(** The exceptions the modelled code can meet.  [OSError] comes from the
    host (a file that cannot be opened, a flush that fails), [ValueError]
    from writing to a closed file, [UnboundLocalError] and [AttributeError]
    from reading a local or an attribute that was never assigned, and
    [UserError] stands for whatever the body of a [with] block raises, and
    [TypeError] comes from an operator applied to [None]. *)
Inductive exn : Type :=
| OSError (what : string)
| ValueError (msg : string)
| UnboundLocalError (var : string)
| AttributeError (attr : string)
| AssertionError (msg : option value)
| UserError (tag : nat)
| TypeError (msg : string).

(** How a block of statements ends: it runs to its end, it raises, or it
    leaves early ([return], [break], [continue]). *)
Inductive outcome (A : Type) : Type :=
| Normal (a : A)
| Raised (e : exn)
| Exited.
Arguments Normal {A} a.
Arguments Raised {A} e.
Arguments Exited {A}.

(** ** The monad of Python statements over a state [S] *)

Definition Py (S A : Type) : Type := S -> S * outcome A.

Definition ret {S A} (a : A) : Py S A := fun s => (s, Normal a).

Definition raise {S A} (e : exn) : Py S A := fun s => (s, Raised e).

Definition leave {S A} : Py S A := fun s => (s, Exited).

Definition bind {S A B} (m : Py S A) (k : A -> Py S B) : Py S B :=
  fun s =>
    match m s with
    | (s1, Normal a) => k a s1
    | (s1, Raised e) => (s1, Raised e)
    | (s1, Exited) => (s1, Exited)
    end.

#[export] Instance py_ret {S} : MRet (Py S) := fun A => @ret S A.
#[export] Instance py_bind {S} : MBind (Py S) := fun A B k m => @bind S A B m k.

(** [try: body finally: fin].  The [finally] suite runs however [body] ended;
    when it raises (or leaves) itself, its own outcome replaces the one of
    [body], otherwise the outcome of [body] is what the statement yields. *)
Definition try_finally {S A} (body : Py S A) (fin : Py S unit) : Py S A :=
  fun s =>
    let '(s1, r) := body s in
    match fin s1 with
    | (s2, Normal _) => (s2, r)
    | (s2, Raised e) => (s2, Raised e)
    | (s2, Exited) => (s2, Exited)
    end.

(** [with mgr as v: body], for a manager given by its two methods.
    [__enter__] raising means the block is never entered and [__exit__] is
    never called.  Otherwise [__exit__] is called exactly when the body
    ends: with [None] after a normal end or an early exit, with the
    exception after a raise; an exception is swallowed only when [__exit__]
    returns a true value, and an exception raised by [__exit__] itself
    replaces the one in flight. *)
Definition with_stmt {S V} (enter : Py S V) (exit : option exn -> Py S bool)
    (body : V -> Py S unit) : Py S unit :=
  fun s =>
    match enter s with
    | (s1, Normal v) =>
        match body v s1 with
        | (s2, Normal _) =>
            match exit None s2 with
            | (s3, Normal _) => (s3, Normal tt)
            | (s3, Raised e') => (s3, Raised e')
            | (s3, Exited) => (s3, Exited)
            end
        | (s2, Exited) =>
            match exit None s2 with
            | (s3, Normal _) => (s3, Exited)
            | (s3, Raised e') => (s3, Raised e')
            | (s3, Exited) => (s3, Exited)
            end
        | (s2, Raised e) =>
            match exit (Some e) s2 with
            | (s3, Normal true) => (s3, Normal tt)
            | (s3, Normal false) => (s3, Raised e)
            | (s3, Raised e') => (s3, Raised e')
            | (s3, Exited) => (s3, Exited)
            end
        end
    | (s1, Raised e) => (s1, Raised e)
    | (s1, Exited) => (s1, Exited)
    end.

(** ** The host: file system and file objects *)

(** What the host decides: whether a path can be opened for writing, and
    whether the data buffered for it can be flushed when the file is
    closed. *)
Record Host : Type := {
  may_open : string -> bool;
  may_flush : string -> bool;
}.

(** A file object as [open(name, 'w')] returns it. *)
Record File : Type := {
  f_name : string;
  f_closed : bool;
  f_buffer : string;
}.

(** File objects are referred to by their index in the store. *)
Definition handle : Type := nat.

Inductive event : Type :=
| EvOpen (name : string) (h : handle)
| EvWrite (h : handle) (data : string)
| EvClose (h : handle).

Record World : Type := {
  host : Host;
  fs : gmap string string;
  files : list File;
  trace : list event;
}.

Definition log (e : event) (w : World) : World :=
  {| host := host w; fs := fs w; files := files w; trace := trace w ++ [e] |}.

Fixpoint string_drop (n : nat) (s : string) : string :=
  match n, s with
  | O, _ => s
  | S n', EmptyString => EmptyString
  | S n', String _ s' => string_drop n' s'
  end.

(** Writing [data] at offset 0 over [old]. *)
Definition overlay (data old : string) : string :=
  data +:+ string_drop (String.length data) old.

(** [open(name, 'w')]: the file is created or truncated and a fresh open
    file object is returned; [OSError] when the host refuses. *)
Definition open (name : string) : Py World handle :=
  fun w =>
    if may_open (host w) name then
      let h := length (files w) in
      (log (EvOpen name h)
         {| host := host w;
            fs := <[name := ""]> (fs w);
            files := files w ++ [{| f_name := name; f_closed := false; f_buffer := "" |}];
            trace := trace w |},
       Normal h)
    else (w, Raised (OSError name)).

(** [f.write(data)]: buffered; [ValueError] on a closed file. *)
Definition write (h : handle) (data : string) : Py World unit :=
  fun w =>
    match files w !! h with
    | Some f =>
        if f_closed f then (w, Raised (ValueError "I/O operation on closed file."))
        else
          (log (EvWrite h data)
             {| host := host w;
                fs := fs w;
                files := <[h := {| f_name := f_name f; f_closed := false;
                                   f_buffer := f_buffer f +:+ data |}]> (files w);
                trace := trace w |},
           Normal tt)
    | None => (w, Raised (ValueError "I/O operation on closed file."))
    end.

(** [f.close()]: does nothing on a file that is already closed; otherwise
    the file object becomes closed and its buffer is flushed, and a flush
    the host refuses surfaces as [OSError] (the object is closed all the
    same). *)
Definition close (h : handle) : Py World unit :=
  fun w =>
    let w := log (EvClose h) w in
    match files w !! h with
    | Some f =>
        if f_closed f then (w, Normal tt)
        else
          let closed := {| f_name := f_name f; f_closed := true; f_buffer := f_buffer f |} in
          if may_flush (host w) (f_name f) then
            ({| host := host w;
                fs := <[f_name f := overlay (f_buffer f) (default "" (fs w !! f_name f))]> (fs w);
                files := <[h := closed]> (files w);
                trace := trace w |},
             Normal tt)
          else
            ({| host := host w; fs := fs w;
                files := <[h := closed]> (files w);
                trace := trace w |},
             Raised (OSError (f_name f)))
    | None => (w, Normal tt)
    end.

(** A file object is always true in a boolean context: it defines neither
    [__bool__] nor [__len__]. *)
Definition file_truthy (h : handle) : bool := true.

(** ** Local state next to the world

    A method runs against the world and its [self]; a generator against the
    world and its frame.  Both are a pair of the world and a local part. *)

Definition in_world {L A} (m : Py World A) : Py (World * L) A :=
  fun '(w, l) => let '(w', r) := m w in ((w', l), r).

Definition get_local {L} : Py (World * L) L :=
  fun '(w, l) => ((w, l), Normal l).

Definition set_local {L} (l : L) : Py (World * L) unit :=
  fun '(w, _) => ((w, l), Normal tt).

(** Runs [m] with the local part [l0] and forgets the local part. *)
Definition run_local {L A} (l0 : L) (m : Py (World * L) A) : Py World A :=
  fun w => let '((w', _), r) := m (w, l0) in (w', r).

(** ** The body of a [with] block

    What the callers of the managers do with the file they are given:
    write to it, fail, or leave the block early. *)
Inductive stmt : Type :=
| SWrite (data : string)
| SRaise (e : exn)
| SReturn.

Fixpoint exec (f : handle) (body : list stmt) : Py World unit :=
  match body with
  | [] => ret tt
  | SWrite data :: rest => write f data;; exec f rest
  | SRaise e :: _ => raise e
  | SReturn :: _ => leave
  end.

(** ** [class ManagedFile] *)

Module ManagedFile.

(** An instance: [name] is set by [__init__]; [file] is an attribute only
    once [__enter__] has assigned it ([None] here: no such attribute). *)
Record t : Type := {
  name : string;
  file : option handle;
}.

Definition __init__ (name : string) : t :=
  {| name := name; file := None |}.

(** Reading [self.file]. *)
Definition self_file : Py (World * t) handle :=
  self ← get_local;
  match file self with
  | Some f => ret f
  | None => raise (AttributeError "file")
  end.

Definition __enter__ : Py (World * t) handle :=
  self ← get_local;
  f ← in_world (open (name self));
  set_local {| name := name self; file := Some f |};;
  self_file.

(** Returns [None], which is false: the exception in flight, if any, is
    not swallowed. *)
Definition __exit__ (exc : option exn) : Py (World * t) bool :=
  f ← self_file;
  (if file_truthy f then f' ← self_file; in_world (close f') else ret tt);;
  ret false.

End ManagedFile.

(** [with ManagedFile(name) as f: body] *)
Definition with_ManagedFile (name : string) (body : list stmt) : Py World unit :=
  run_local (ManagedFile.__init__ name)
    (with_stmt ManagedFile.__enter__ ManagedFile.__exit__
       (fun f => in_world (exec f body))).

(** ** [@contextmanager def managed_file(name)]

    The generator has one [yield], inside [try]; the decorator runs it up
    to the [yield] on entry and resumes it there on exit, by [next] after a
    normal end or an early exit of the block and by [throw] of the
    exception after a raise.  So what the block does happens at the
    [yield]: it is passed in as [yield_].  The frame holds the local [f],
    unbound until the assignment has run. *)
Definition local_f : Py (World * option handle) handle :=
  fr ← get_local;
  match fr with
  | Some f => ret f
  | None => raise (UnboundLocalError "f")
  end.

Definition managed_file (name : string) (yield_ : handle -> Py World unit)
    : Py (World * option handle) unit :=
  try_finally
    (f ← in_world (open name);
     set_local (Some f);;
     f' ← local_f;
     in_world (yield_ f'))
    (f ← local_f;
     in_world (close f)).

(** [with managed_file(name) as f: body] *)
Definition with_managed_file (name : string) (body : list stmt) : Py World unit :=
  run_local None (managed_file name (fun f => exec f body)).

(** ** The built-in file object as a manager, and the plain [try/finally] *)

(** [file.__enter__] returns the file itself and refuses a closed file;
    [file.__exit__] closes it and returns [None]. *)
Definition file_enter (f : handle) : Py World handle :=
  fun w =>
    match files w !! f with
    | Some o => if f_closed o then (w, Raised (ValueError "I/O operation on closed file."))
                else (w, Normal f)
    | None => (w, Raised (ValueError "I/O operation on closed file."))
    end.

Definition file_exit (f : handle) (exc : option exn) : Py World bool :=
  close f;; ret false.

(** [with open(name, 'w') as f: body] (lines 8-9) *)
Definition with_open (name : string) (body : list stmt) : Py World unit :=
  f ← open name;
  with_stmt (file_enter f) (file_exit f) (fun f' => exec f' body).

(** [f = open(name, 'w')], then [try: body finally: f.close()] (lines 12-16) *)
Definition open_try_finally (name : string) (body : list stmt) : Py World unit :=
  f ← open name;
  try_finally (exec f body) (close f).

(** ** [class Indenter] *)

(** [s * n] for a string [s]: empty when [n] is not positive.  This is the
    operator for an [n] that fits an index-sized integer; Python refuses a
    larger one with [OverflowError], which takes a level beyond anything a
    program can count up to by entering and leaving blocks. *)
Definition str_mul (s : string) (n : Z) : string :=
  String.concat "" (replicate (Z.to_nat n) s).

Module Indenter.

Record t : Type := { level : Z }.

Definition __init__ : t := {| level := 0 |}.

(** The methods run against what was printed so far and the instance.
    The nested blocks of the example all enter the one instance that
    [indent] names, so the instance is part of the state, not a value
    made anew for each block. *)
Definition state : Type := list string * t.

(** Returns [self], which the state already holds. *)
Definition __enter__ : Py state unit :=
  fun '(out, self) => ((out, {| level := level self + 1 |}), Normal tt).

(** Returns [None]: nothing is swallowed. *)
Definition __exit__ (exc : option exn) : Py state bool :=
  fun '(out, self) => ((out, {| level := level self - 1 |}), Normal false).

Definition print (msg : string) : Py state unit :=
  fun '(out, self) => ((out ++ [str_mul " " (level self) +:+ msg], self), Normal tt).

End Indenter.

(** Blocks over one indenter: [indent.print(msg)], a nested [with indent:],
    and a statement that raises. *)
Inductive istmt : Type :=
| IPrint (msg : string)
| IWith (body : list istmt)
| IRaise (e : exn).

Fixpoint iexec (s : istmt) : Py Indenter.state unit :=
  match s with
  | IPrint msg => Indenter.print msg
  | IRaise e => raise e
  | IWith body =>
      with_stmt Indenter.__enter__ Indenter.__exit__
        (fun _ =>
           (fix block (b : list istmt) : Py Indenter.state unit :=
              match b with
              | [] => ret tt
              | s' :: rest => iexec s';; block rest
              end) body)
  end.

Fixpoint iblock (b : list istmt) : Py Indenter.state unit :=
  match b with
  | [] => ret tt
  | s :: rest => iexec s;; iblock rest
  end.

(** Lines 82-88. *)
Definition indenter_example : istmt :=
  IWith [IPrint "Hi";
         IWith [IPrint "hello";
                IWith [IPrint "bonjour"]];
         IPrint "hey"].

(** Bare calls of the two methods, in any order. *)
Inductive call : Type := Enter | Exit.

Definition do_call (c : call) (s : Indenter.state) : Indenter.state :=
  match c with
  | Enter => fst (Indenter.__enter__ s)
  | Exit => fst (Indenter.__exit__ None s)
  end.

Definition run_calls (cs : list call) (s : Indenter.state) : Indenter.state :=
  foldl (fun s c => do_call c s) s cs.

Definition is_enter (c : call) : bool :=
  match c with Enter => true | Exit => false end.

(** Enter calls not yet matched by an exit call. *)
Definition unmatched (cs : list call) : Z :=
  Z.of_nat (length (List.filter is_enter cs))
  - Z.of_nat (length (List.filter (fun c => negb (is_enter c)) cs)).

(** ** The [assert] statement (assertions.py) *)

(** Truth value of an object: [None], [False], zero and empty containers
    are false, everything else is true. *)
Definition truthy (v : value) : bool :=
  match v with
  | VNone => false
  | VBool b => b
  | VInt n => negb (n =? 0)%Z
  | VStr s => negb (String.eqb s "")
  | VTuple items => match items with [] => false | _ :: _ => true end
  end.

(** [a == b].  [True] and [False] compare as 1 and 0. *)
Fixpoint value_eqb (a b : value) : bool :=
  match a, b with
  | VNone, VNone => true
  | VBool x, VBool y => Bool.eqb x y
  | VInt x, VInt y => (x =? y)%Z
  | VBool x, VInt y => ((if x then 1 else 0) =? y)%Z
  | VInt x, VBool y => (x =? (if y then 1 else 0))%Z
  | VStr x, VStr y => String.eqb x y
  | VTuple xs, VTuple ys =>
      (fix items (xs ys : list value) : bool :=
         match xs, ys with
         | [], [] => true
         | x :: xs', y :: ys' => value_eqb x y && items xs' ys'
         | _, _ => false
         end) xs ys
  | _, _ => false
  end.

Inductive expr : Type :=
| Const (v : value)
| Eq (a b : expr)
| Tuple (items : list expr).

Fixpoint eval (e : expr) : value :=
  match e with
  | Const v => v
  | Eq a b => VBool (value_eqb (eval a) (eval b))
  | Tuple items => VTuple (List.map eval items)
  end.

(** [assert test, msg].  Under [-O] (and [-OO], [PYTHONOPTIMIZE]) the
    statement is compiled away; otherwise it raises [AssertionError] when
    [test] is false. *)
Definition assert_stmt {S} (optimize : bool) (test : expr) (msg : option expr) : Py S unit :=
  if optimize then ret tt
  else if truthy (eval test) then ret tt
  else raise (AssertionError (eval <$> msg)).

(** Line 83: [assert (1 == 2, 'This should fail...')].  The parentheses
    make one tuple of the comparison and the message. *)
Definition module_assert {S} (optimize : bool) : Py S unit :=
  assert_stmt optimize
    (Tuple [Eq (Const (VInt 1)) (Const (VInt 2)); Const (VStr "This should fail...")])
    None.

(** What the author meant: [assert 1 == 2, 'This should fail...']. *)
Definition intended_assert {S} (optimize : bool) : Py S unit :=
  assert_stmt optimize
    (Eq (Const (VInt 1)) (Const (VInt 2)))
    (Some (Const (VStr "This should fail..."))).

(** ** Reading a block, a trace and a file object *)

(** The data a block writes before it ends: the writes up to the first
    statement that raises or leaves. *)
Fixpoint written (body : list stmt) : list string :=
  match body with
  | SWrite data :: rest => data :: written rest
  | _ => []
  end.

(** How a block ends when its file is open. *)
Fixpoint signal (body : list stmt) : outcome unit :=
  match body with
  | [] => Normal tt
  | SWrite _ :: rest => signal rest
  | SRaise e :: _ => Raised e
  | SReturn :: _ => Exited
  end.

Definition joined (parts : list string) : string :=
  foldr String.append "" parts.

Definition is_release (h : handle) (e : event) : bool :=
  match e with
  | EvClose h' => Nat.eqb h' h
  | _ => false
  end.

Definition count_release (h : handle) (tr : list event) : nat :=
  length (List.filter (is_release h) tr).

(** The events between the world [w] before a statement and the world [w']
    after it. *)
Definition events_since (w w' : World) : list event :=
  drop (length (trace w)) (trace w').

(** The life of a resource. *)
Inductive rstate : Type := Unopened | Open | Closed.

Definition state_of (w : World) (h : handle) : rstate :=
  match files w !! h with
  | None => Unopened
  | Some f => if f_closed f then Closed else Open
  end.

(** [Unopened -> Open -> Closed]: acquisition is the one step out of
    [Unopened], use keeps the resource [Open], release is the one step into
    [Closed], and nothing is accepted on a [Closed] resource.  Events of
    other resources do not concern [h]. *)
Definition step (h : handle) (s : rstate) (e : event) : option rstate :=
  match e with
  | EvOpen _ h' =>
      if decide (h' = h) then match s with Unopened => Some Open | _ => None end
      else Some s
  | EvWrite h' _ =>
      if decide (h' = h) then match s with Open => Some Open | _ => None end
      else Some s
  | EvClose h' =>
      if decide (h' = h) then match s with Open => Some Closed | _ => None end
      else Some s
  end.

Fixpoint run_machine (h : handle) (s : rstate) (tr : list event) : option rstate :=
  match tr with
  | [] => Some s
  | e :: rest =>
      match step h s e with
      | Some s' => run_machine h s' rest
      | None => None
      end
  end.

(** A target is writable when the host lets it be opened for writing and
    lets what was written reach it. *)
Definition writable (w : World) (name : string) : bool :=
  may_open (host w) name && may_flush (host w) name.

(** ** Some hosts and worlds *)

Definition willing_host : Host :=
  {| may_open := fun _ => true; may_flush := fun _ => true |}.

(** Nothing can be opened for writing (no permission, no such directory). *)
Definition refusing_host : Host :=
  {| may_open := fun _ => false; may_flush := fun _ => true |}.

(** Files open, but what is buffered cannot be flushed (the disk is full). *)
Definition full_host : Host :=
  {| may_open := fun _ => true; may_flush := fun _ => false |}.

Definition fresh_world (h : Host) : World :=
  {| host := h; fs := ∅; files := []; trace := [] |}.

(** A world in which [test.txt] already holds the longer text that lines
    39-41 leave behind. *)
Definition used_world : World :=
  {| host := willing_host;
     fs := {[ "test.txt" := "Hello, World!end of file" ]};
     files := [{| f_name := "test.txt"; f_closed := true;
                  f_buffer := "Hello, World!end of file" |}];
     trace := [EvOpen "test.txt" 0; EvWrite 0 "Hello, World!";
               EvWrite 0 "end of file"; EvClose 0] |}.

(** What a scope over [name] with block [body] comes to, once [name] could
    be opened. *)
Definition scope_result (name : string) (body : list stmt) (w : World)
    : World * outcome unit :=
  let h := length (files w) in
  let data := joined (written body) in
  let tr := trace w ++ EvOpen name h :: map (EvWrite h) (written body) ++ [EvClose h] in
  let fl := files w ++ [{| f_name := name; f_closed := true; f_buffer := data |}] in
  if may_flush (host w) name then
    ({| host := host w; fs := <[name := data]> (fs w); files := fl; trace := tr |},
     signal body)
  else
    ({| host := host w; fs := <[name := ""]> (fs w); files := fl; trace := tr |},
     Raised (OSError name)).

(** The events of one scope over the file object [h]: acquisition, the
    writes of the block, release. *)
Definition scope_events (name : string) (body : list stmt) (h : handle) : list event :=
  EvOpen name h :: map (EvWrite h) (written body) ++ [EvClose h].

(** The operations of the host on file objects. *)
Inductive prim : Type :=
| POpen (name : string)
| PWrite (h : handle) (data : string)
| PClose (h : handle).

Definition do_prim (p : prim) (w : World) : World :=
  match p with
  | POpen name => fst (open name w)
  | PWrite h data => fst (write h data w)
  | PClose h => fst (close h w)
  end.

(** Between [w] and [w'] one scope over [name] ran its course: the file
    was acquired, the block wrote what it writes, and the release came
    once, as the last event. *)
Definition released_once_at_end (name : string) (body : list stmt) (w w' : World) : Prop :=
  let h := length (files w) in
  events_since w w' = EvOpen name h :: map (EvWrite h) (written body) ++ [EvClose h]
  /\ count_release h (events_since w w') = 1
  /\ last (events_since w w') = Some (EvClose h).

(** After a statement that started in [w] and ended as [res]: the target
    [name] holds exactly [data], the file object the statement acquired is
    closed, and the statement ended normally. *)
Definition written_and_closed (name data : string) (w : World)
    (res : World * outcome unit) : Prop :=
  let h := length (files w) in
  fs (fst res) !! name = Some data
  /\ state_of (fst res) h = Closed
  /\ f_closed <$> files (fst res) !! h = Some true
  /\ snd res = Normal tt.

(** ** More uses of the managers *)

(** [with m as f: body] on an instance [m] that exists already.  The
    assignment in [__enter__] drops the reference that [m.file] held; this
    is all that happens as long as the file object it held is closed or is
    still referenced from elsewhere (an open file object that nothing
    refers to any more would be closed by the interpreter, which is not
    modelled). *)
Definition with_instance (body : list stmt) : Py (World * ManagedFile.t) unit :=
  with_stmt ManagedFile.__enter__ ManagedFile.__exit__
    (fun f => in_world (exec f body)).

(** [with m as g: with m as f: body]: one instance entered again inside
    its own block.  The name [g] refers to the first file object from the
    outer [__enter__] on, so that object stays referenced when the inner
    [__enter__] rebinds [m.file]. *)
Definition with_instance_twice (body : list stmt) : Py (World * ManagedFile.t) unit :=
  with_stmt ManagedFile.__enter__ ManagedFile.__exit__
    (fun g => with_instance body).

(** The four blocks that context_managers.py runs on [test.txt], in order:
    lines 8-9, 12-16, 39-41 and 62-63. *)
Definition file_script : Py World unit :=
  with_open "test.txt" [SWrite "Hello, World!"];;
  open_try_finally "test.txt" [SWrite "Hello, World!"];;
  with_ManagedFile "test.txt" [SWrite "Hello, World!"; SWrite "end of file"];;
  with_managed_file "test.txt" [SWrite "Hello, World!"].

(** What a statement may touch when it works on [name]: the host stays,
    every other path keeps its content, every file object that existed
    stays as it was, and the trace only grows. *)
Definition untouched (name : string) (w w' : World) : Prop :=
  host w' = host w
  /\ (forall other : string, other <> name -> fs w' !! other = fs w !! other)
  /\ (forall (g : handle) (o : File), files w !! g = Some o -> files w' !! g = Some o)
  /\ (exists evs : list event, trace w' = trace w ++ evs).

(** What a statement of an indenter program prints from the level [lvl],
    and how it ends: a message is indented by the level, a block works one
    level deeper, a raise cuts the rest off. *)
Fixpoint render (lvl : Z) (s : istmt) : list string * outcome unit :=
  match s with
  | IPrint msg => ([str_mul " " lvl +:+ msg], Normal tt)
  | IRaise e => ([], Raised e)
  | IWith body =>
      (fix block (b : list istmt) : list string * outcome unit :=
         match b with
         | [] => ([], Normal tt)
         | s' :: rest =>
             match render (lvl + 1) s' with
             | (lines, Normal _) =>
                 let '(more, r) := block rest in (lines ++ more, r)
             | (lines, r) => (lines, r)
             end
         end) body
  end.

Fixpoint render_block (lvl : Z) (b : list istmt) : list string * outcome unit :=
  match b with
  | [] => ([], Normal tt)
  | s :: rest =>
      match render lvl s with
      | (lines, Normal _) =>
          let '(more, r) := render_block lvl rest in (lines ++ more, r)
      | (lines, r) => (lines, r)
      end
  end.

(** ** assertions.py: [apply_discount] and [delete_product] *)

(** The exceptions of this module. *)
Module Failure.

Inductive t : Type :=
| KeyError (key : string)
| TypeError (msg : string)
| ValueError (msg : string)
| OverflowError (msg : string)
| AssertionError (msg : string)
| AuthError (msg : string).

End Failure.

(** A call returns a value or raises. *)
Inductive result (A : Type) : Type :=
| Ok (a : A)
| Err (e : Failure.t).
Arguments Ok {A} a.
Arguments Err {A} e.

#[export] Instance result_ret : MRet result := fun A a => Ok a.
#[export] Instance result_bind : MBind result :=
  fun A B k m => match m with Ok a => k a | Err e => Err e end.

(** [d[key]] *)
Definition dict_get (d : gmap string value) (key : string) : result value :=
  match d !! key with
  | Some v => Ok v
  | None => Err (Failure.KeyError key)
  end.

(** [int(v)].  How the text of a string is read as a number is left to
    [int_of_str]. *)
Definition int_ (int_of_str : string -> option Z) (v : value) : result Z :=
  match v with
  | VInt n => Ok n
  | VBool b => Ok (if b then 1 else 0)%Z
  | VStr s =>
      match int_of_str s with
      | Some n => Ok n
      | None => Err (Failure.ValueError "invalid literal for int() with base 10")
      end
  | VNone | VTuple _ =>
      Err (Failure.TypeError
             "int() argument must be a string, a bytes-like object or a real number")
  end.

(** An [int] as a binary64 [float], rounded to nearest even;
    [OverflowError] when it is too large. *)
Definition float_of_int (n : Z) : result float :=
  match binary_normalize prec emax n 0 false with
  | S754_infinity _ => Err (Failure.OverflowError "int too large to convert to float")
  | sf => Ok (SF2Prim sf)
  end.

(** [n * x] for an [int] [n] and a [float] [x]. *)
Definition int_times_float (n : Z) (x : float) : result float :=
  f ← float_of_int n; Ok (PrimFloat.mul f x).

(** [n <= x] and [x <= n] for an [int] [n] and a [float] [x]: the two are
    compared as the numbers they are, without rounding [n]; a NaN compares
    false. *)
Definition int_le_float (n : Z) (x : float) : bool :=
  match Prim2SF x with
  | S754_nan => false
  | S754_infinity s => negb s
  | S754_zero _ => (n <=? 0)%Z
  | S754_finite s m e =>
      let v := if s then Zneg m else Zpos m in
      if (0 <=? e)%Z then (n <=? v * 2 ^ e)%Z else (n * 2 ^ (- e) <=? v)%Z
  end.

Definition float_le_int (x : float) (n : Z) : bool :=
  match Prim2SF x with
  | S754_nan => false
  | S754_infinity s => s
  | S754_zero _ => (0 <=? n)%Z
  | S754_finite s m e =>
      let v := if s then Zneg m else Zpos m in
      if (0 <=? e)%Z then (v * 2 ^ e <=? n)%Z else (v <=? n * 2 ^ (- e))%Z
  end.

(** [x <= v] for a [float] [x] and any object [v]. *)
Definition float_le_value (x : float) (v : value) : result bool :=
  match v with
  | VInt n => Ok (float_le_int x n)
  | VBool b => Ok (float_le_int x (if b then 1 else 0))
  | VNone | VStr _ | VTuple _ =>
      Err (Failure.TypeError "'<=' not supported between instances of 'float' and this type")
  end.

(** [assert test, msg] where the test may itself raise.  Under [-O] the
    test is not even evaluated. *)
Definition assert_ (optimize : bool) (test : result bool) (msg : string) : result unit :=
  if optimize then Ok tt
  else
    match test with
    | Ok true => Ok tt
    | Ok false => Err (Failure.AssertionError msg)
    | Err e => Err e
    end.

(** [0 <= price <= product['price']]: the second comparison is made only
    when the first holds. *)
Definition price_in_range (product : gmap string value) (price : float) : result bool :=
  if int_le_float 0 price then
    v ← dict_get product "price"; float_le_value price v
  else Ok false.

Definition apply_discount (int_of_str : string -> option Z) (optimize : bool)
    (product : gmap string value) (discount : float) : result float :=
  v ← dict_get product "price";
  n ← int_ int_of_str v;
  price ← int_times_float n (PrimFloat.sub 1 discount);
  assert_ optimize (price_in_range product price)
    "Error: Discounted price bust be > 0 and < product price";;
  Ok price.

(** Line 17. *)
Definition shoes : gmap string value :=
  {[ "name" := VStr "Fancy Shoes"; "price" := VInt 14900 ]}.

(** The literal [0.10]: the binary64 number nearest to one tenth. *)
Definition ten_percent : float := 0x1.999999999999ap-4%float.

(** A reader of numbers that knows no string: enough where the price is an
    [int]. *)
Definition no_strings (s : string) : option Z := None.

Module Product.

Record t : Type := { product_id : value }.

(** [delete] does nothing ([pass]); the list records on which products it
    was called. *)
Definition delete (self : t) (deleted : list value) : list value :=
  deleted ++ [product_id self].

End Product.

Module Store.

Record t : Type := { store_id : value }.

(** The body is [pass]: the method returns [None] for every id. *)
Definition has_product_id (prod_id : value) : value := VNone.

Definition get_product (prod_id : value) : Product.t :=
  {| Product.product_id := prod_id |}.

End Store.

(** A user, as far as [delete_product] looks at it: what [is_admin()]
    answers. *)
Record User : Type := { is_admin : value }.

Definition delete_product (optimize : bool) (product_id : value) (user : User)
    (deleted : list value) : list value * result unit :=
  let store := {| Store.store_id := VInt 1 |} in
  match assert_ optimize (Ok (truthy (is_admin user))) "Must be and admin" with
  | Err e => (deleted, Err e)
  | Ok _ =>
      match assert_ optimize (Ok (truthy (Store.has_product_id product_id)))
              "Unknown product" with
      | Err e => (deleted, Err e)
      | Ok _ =>
          let deleted := Product.delete (Store.get_product product_id) deleted in
          if negb (truthy (is_admin user)) then
            (deleted, Err (Failure.AuthError "Must be and admin to delete"))
          else if negb (truthy (Store.has_product_id product_id)) then
            (deleted, Err (Failure.ValueError "Unknown product ID"))
          else
            (Product.delete (Store.get_product product_id) deleted, Ok tt)
      end
  end.

(** ** [class Timer] *)

(** Where the timer runs.  [clock n] is the reading, in microseconds, that
    the [n]-th call of [datetime.utcnow()] returns: the host alone decides
    these readings (it is the wall clock, which can be set while the
    program runs).  [reads] counts the calls made so far and [stdout] holds
    the lines printed. *)
Record Machine : Type := {
  clock : nat -> Z;
  reads : nat;
  stdout : list string;
}.

Definition utcnow : Py Machine Z :=
  fun m =>
    ({| clock := clock m; reads := S (reads m); stdout := stdout m |},
     Normal (clock m (reads m))).

Definition print_line (line : string) : Py Machine unit :=
  fun m =>
    ({| clock := clock m; reads := reads m; stdout := stdout m ++ [line] |},
     Normal tt).


(** [n] in decimal, padded with zeros to [width] digits. *)
Definition zero_padded (width : nat) (n : Z) : string :=
  String.concat "" (replicate (width - String.length (pretty n)) "0") +:+ pretty n.

(** [str] of the [timedelta] of [us] microseconds: days (when there are
    any), hours, minutes and seconds, and the microseconds when they are
    not zero; seconds and microseconds are never negative, the days carry
    the sign. *)
Definition timedelta_str (us : Z) : string :=
  let days := (us / 86400000000)%Z in
  let in_day := (us mod 86400000000)%Z in
  let seconds := (in_day / 1000000)%Z in
  let microseconds := (in_day mod 1000000)%Z in
  let hh := (seconds / 60 / 60)%Z in
  let mm := ((seconds / 60) mod 60)%Z in
  let ss := (seconds mod 60)%Z in
  let clock_part := pretty hh +:+ ":" +:+ zero_padded 2 mm +:+ ":" +:+ zero_padded 2 ss in
  let with_days :=
    if (days =? 0)%Z then clock_part
    else pretty days +:+ " day" +:+ (if (Z.abs days =? 1)%Z then "" else "s")
         +:+ ", " +:+ clock_part in
  if (microseconds =? 0)%Z then with_days
  else with_days +:+ "." +:+ zero_padded 6 microseconds.

(** A method of the timer runs against the machine and its [self]. *)
Definition on_machine {L A} (m : Py Machine A) : Py (Machine * L) A :=
  fun '(w, l) => let '(w', r) := m w in ((w', l), r).

Definition get_self {L} : Py (Machine * L) L :=
  fun '(w, l) => ((w, l), Normal l).

Definition set_self {L} (l : L) : Py (Machine * L) unit :=
  fun '(w, _) => ((w, l), Normal tt).

Module Timer.

(** [start] and [end] are [None] until the methods set them. *)
Record t : Type := {
  start : option Z;
  end_ : option Z;
}.

Definition __init__ : t := {| start := None; end_ := None |}.

(** Returns nothing: [as timer] binds [None]. *)
Definition __enter__ : Py (Machine * t) value :=
  now ← on_machine utcnow;
  self ← get_self;
  set_self {| start := Some now; end_ := end_ self |};;
  ret VNone.

(** [self.end - self.start], where a [None] on either side is a
    [TypeError]. *)
Definition elapsed (self : t) : option Z :=
  match end_ self, start self with
  | Some e, Some s => Some (e - s)%Z
  | _, _ => None
  end.

(** Returns [None]: nothing is swallowed. *)
Definition __exit__ (exc : option exn) : Py (Machine * t) bool :=
  now ← on_machine utcnow;
  self ← get_self;
  set_self {| start := start self; end_ := Some now |};;
  self ← get_self;
  match elapsed self with
  | Some delta =>
      on_machine (print_line ("Function duration:  " +:+ timedelta_str delta))
  | None =>
      raise (TypeError "unsupported operand type(s) for -: 'datetime.datetime' and 'NoneType'")
  end;;
  ret false.

End Timer.










(** * Properties *)

(** ** Strings *)

Lemma append_empty_r (s : string) : s +:+ "" = s.
Proof.
  induction s as [|c s IH]; [reflexivity|].
  change (String c (s +:+ "") = String c s). now rewrite IH.
Qed.

Lemma append_assoc3 (a b c : string) : (a +:+ b) +:+ c = a +:+ (b +:+ c).
Proof.
  induction a as [|x a IH]; [reflexivity|].
  change (String x ((a +:+ b) +:+ c) = String x (a +:+ (b +:+ c))). now rewrite IH.
Qed.

Lemma string_drop_empty (n : nat) : string_drop n "" = "".
Proof. destruct n; reflexivity. Qed.

Lemma overlay_empty (data : string) : overlay data "" = data.
Proof. unfold overlay. now rewrite string_drop_empty, append_empty_r. Qed.

(** ** The file primitives on an open file *)

Lemma open_ok (name : string) (w : World) :
  may_open (host w) name = true ->
  open name w =
    ({| host := host w;
        fs := <[name := ""]> (fs w);
        files := files w ++ [{| f_name := name; f_closed := false; f_buffer := "" |}];
        trace := trace w ++ [EvOpen name (length (files w))] |},
     Normal (length (files w))).
Proof. unfold open. intros ->. reflexivity. Qed.

Lemma open_refused (name : string) (w : World) :
  may_open (host w) name = false ->
  open name w = (w, Raised (OSError name)).
Proof. unfold open. intros ->. reflexivity. Qed.

Lemma exec_open (body : list stmt) :
  forall (w : World) (f : handle) (o : File),
    files w !! f = Some o ->
    f_closed o = false ->
    exec f body w =
      ({| host := host w;
          fs := fs w;
          files := <[f := {| f_name := f_name o; f_closed := false;
                             f_buffer := f_buffer o +:+ joined (written body) |}]> (files w);
          trace := trace w ++ map (EvWrite f) (written body) |},
       signal body).
Proof.
  assert (Hid : forall (w : World) (f : handle) (o : File),
             files w !! f = Some o -> f_closed o = false ->
             w = {| host := host w; fs := fs w;
                    files := <[f := {| f_name := f_name o; f_closed := false;
                                       f_buffer := f_buffer o +:+ "" |}]> (files w);
                    trace := trace w ++ [] |}).
  { intros [hw fw lw tw] f [n c b] Hf Hc; simpl in *; subst c.
    rewrite append_empty_r, app_nil_r, list_insert_id by exact Hf. reflexivity. }
  induction body as [|s rest IH]; intros w f o Hf Hc.
  - simpl. rewrite <- (Hid w f o Hf Hc). reflexivity.
  - destruct s as [data|e|]; simpl.
    + unfold mbind, py_bind, bind, write. rewrite Hf, Hc.
      set (o1 := {| f_name := f_name o; f_closed := false; f_buffer := f_buffer o +:+ data |}).
      rewrite (IH _ f o1); simpl.
      * rewrite list_insert_insert_eq, append_assoc3, <- app_assoc. reflexivity.
      * apply list_lookup_insert_eq. eapply lookup_lt_Some, Hf.
      * reflexivity.
    + unfold raise. rewrite <- (Hid w f o Hf Hc). reflexivity.
    + unfold leave. rewrite <- (Hid w f o Hf Hc). reflexivity.
Qed.

Lemma close_open (w : World) (f : handle) (o : File) :
  files w !! f = Some o ->
  f_closed o = false ->
  close f w =
    let closed := {| f_name := f_name o; f_closed := true; f_buffer := f_buffer o |} in
    if may_flush (host w) (f_name o) then
      ({| host := host w;
          fs := <[f_name o := overlay (f_buffer o) (default "" (fs w !! f_name o))]> (fs w);
          files := <[f := closed]> (files w);
          trace := trace w ++ [EvClose f] |},
       Normal tt)
    else
      ({| host := host w; fs := fs w;
          files := <[f := closed]> (files w);
          trace := trace w ++ [EvClose f] |},
       Raised (OSError (f_name o))).
Proof.
  intros Hf Hc. unfold close. simpl. rewrite Hf, Hc.
  destruct (may_flush (host w) (f_name o)); reflexivity.
Qed.

(** ** A scope, step by step *)

Lemma opened_lookup (name : string) (w : World) :
  (files w ++ [{| f_name := name; f_closed := false; f_buffer := "" |}])
    !! length (files w)
  = Some {| f_name := name; f_closed := false; f_buffer := "" |}.
Proof. now apply list_lookup_middle. Qed.

Lemma insert_last {A} (l : list A) (x y : A) :
  <[length l := y]> (l ++ [x]) = l ++ [y].
Proof.
  rewrite insert_app_r_alt by lia. now rewrite Nat.sub_diag.
Qed.

(** The plain [try/finally] of lines 12-16 on a file that can be opened. *)
Lemma open_try_finally_ok (name : string) (body : list stmt) (w : World) :
  may_open (host w) name = true ->
  open_try_finally name body w = scope_result name body w.
Proof.
  intros Hopen.
  unfold open_try_finally, mbind, py_bind, bind, try_finally, scope_result.
  rewrite (open_ok name w Hopen).
  erewrite exec_open; [| apply opened_lookup | reflexivity ].
  erewrite close_open; [| apply list_lookup_insert_eq | reflexivity ].
  2: { cbn [files]. rewrite length_app. simpl. lia. }
  cbn [host fs files trace f_name f_closed f_buffer].
  rewrite list_insert_insert_eq, insert_last, <- !app_assoc.
  destruct (may_flush (host w) name).
  - rewrite lookup_insert_eq. cbn [default].
    rewrite overlay_empty, insert_insert_eq. reflexivity.
  - reflexivity.
Qed.

(** The same statement when the file cannot be opened: [open] is outside
    the [try], so its error is what the caller sees. *)
Lemma open_try_finally_refused (name : string) (body : list stmt) (w : World) :
  may_open (host w) name = false ->
  open_try_finally name body w = (w, Raised (OSError name)).
Proof.
  intros Hopen. unfold open_try_finally, mbind, py_bind, bind.
  now rewrite (open_refused name w Hopen).
Qed.

(** The class is the [try/finally] it abbreviates, on every input. *)
Lemma with_ManagedFile_unfold (name : string) (body : list stmt) (w : World) :
  with_ManagedFile name body w = open_try_finally name body w.
Proof.
  unfold with_ManagedFile, open_try_finally, run_local, with_stmt, try_finally,
    ManagedFile.__enter__, ManagedFile.__exit__, ManagedFile.self_file,
    ManagedFile.__init__, file_truthy, in_world, get_local, set_local,
    mbind, py_bind, bind, ret, raise.
  cbn [ManagedFile.name ManagedFile.file].
  destruct (open name w) as [w1 [h|e|]]; try reflexivity.
  cbn [ManagedFile.name ManagedFile.file].
  destruct (exec h body w1) as [w2 [[]|e|]];
    cbn [ManagedFile.name ManagedFile.file];
    destruct (close h w2) as [w3 [[]|e'|]]; reflexivity.
Qed.

(** So is the built-in file object used as a manager. *)
Lemma with_open_unfold (name : string) (body : list stmt) (w : World) :
  with_open name body w = open_try_finally name body w.
Proof.
  unfold with_open, open_try_finally, mbind, py_bind, bind.
  destruct (may_open (host w) name) eqn:Hopen.
  - rewrite (open_ok name w Hopen).
    unfold with_stmt, try_finally, file_enter, file_exit, mbind, py_bind, bind, ret.
    cbn [files]. rewrite opened_lookup. cbn [f_closed].
    match goal with |- context [exec ?h body ?w1] =>
      destruct (exec h body w1) as [w2 [[]|e|]];
      destruct (close h w2) as [w3 [[]|e'|]]; reflexivity
    end.
  - now rewrite (open_refused name w Hopen).
Qed.

(** The generator is that [try/finally] once the file could be opened. *)
Lemma with_managed_file_ok (name : string) (body : list stmt) (w : World) :
  may_open (host w) name = true ->
  with_managed_file name body w = open_try_finally name body w.
Proof.
  intros Hopen.
  unfold with_managed_file, managed_file, open_try_finally, run_local, try_finally,
    local_f, in_world, get_local, set_local, mbind, py_bind, bind, ret, raise.
  rewrite (open_ok name w Hopen).
  match goal with |- context [exec ?h body ?w1] =>
    destruct (exec h body w1) as [w2 [[]|e|]];
    destruct (close h w2) as [w3 [[]|e'|]]; reflexivity
  end.
Qed.

(** When the file cannot be opened, [open] fails inside the [try]: the
    [finally] suite runs, reads the local [f] that was never bound, and its
    [UnboundLocalError] replaces the [OSError]. *)
Lemma with_managed_file_refused (name : string) (body : list stmt) (w : World) :
  may_open (host w) name = false ->
  with_managed_file name body w = (w, Raised (UnboundLocalError "f")).
Proof.
  intros Hopen.
  unfold with_managed_file, managed_file, run_local, try_finally,
    local_f, in_world, get_local, set_local, mbind, py_bind, bind, ret, raise.
  now rewrite (open_refused name w Hopen).
Qed.

(** ** The trace of a scope *)

Lemma scope_result_trace (name : string) (body : list stmt) (w : World) :
  trace (fst (scope_result name body w))
  = trace w ++ scope_events name body (length (files w)).
Proof. unfold scope_result, scope_events. now destruct (may_flush (host w) name). Qed.

Lemma scope_result_files (name : string) (body : list stmt) (w : World) :
  files (fst (scope_result name body w))
  = files w ++ [{| f_name := name; f_closed := true;
                   f_buffer := joined (written body) |}].
Proof. unfold scope_result. now destruct (may_flush (host w) name). Qed.

Lemma events_since_app (w w' : World) (evs : list event) :
  trace w' = trace w ++ evs -> events_since w w' = evs.
Proof. unfold events_since. intros ->. apply drop_app_length. Qed.

Lemma count_release_writes (h : handle) (ws : list string) (rest : list event) :
  count_release h (map (EvWrite h) ws ++ rest) = count_release h rest.
Proof. induction ws as [|d ws IH]; [reflexivity | exact IH]. Qed.

Lemma count_release_scope (name : string) (body : list stmt) (h : handle) :
  count_release h (scope_events name body h) = 1.
Proof.
  unfold scope_events.
  change (count_release h (map (EvWrite h) (written body) ++ [EvClose h]) = 1).
  rewrite count_release_writes. unfold count_release. simpl.
  now rewrite Nat.eqb_refl.
Qed.

Lemma last_scope_events (name : string) (body : list stmt) (h : handle) :
  last (scope_events name body h) = Some (EvClose h).
Proof. unfold scope_events. rewrite app_comm_cons. apply last_snoc. Qed.

Lemma run_machine_writes (h : handle) (ws : list string) (rest : list event) :
  run_machine h Open (map (EvWrite h) ws ++ rest) = run_machine h Open rest.
Proof.
  induction ws as [|d ws IH]; [reflexivity|].
  simpl. now rewrite decide_True by reflexivity.
Qed.

Lemma run_machine_scope (name : string) (body : list stmt) (h : handle) :
  run_machine h Unopened (scope_events name body h) = Some Closed.
Proof.
  unfold scope_events. simpl. rewrite decide_True by reflexivity.
  rewrite run_machine_writes. simpl. now rewrite decide_True by reflexivity.
Qed.

(** ** The state of a file object *)

Lemma state_of_fresh (w : World) : state_of w (length (files w)) = Unopened.
Proof. unfold state_of. now rewrite lookup_ge_None_2 by lia. Qed.

Lemma state_of_lookup (w : World) (h : handle) (o : File) :
  files w !! h = Some o ->
  state_of w h = if f_closed o then Closed else Open.
Proof. unfold state_of. now intros ->. Qed.

Lemma closed_lookup (w : World) (h : handle) :
  state_of w h = Closed <-> exists o, files w !! h = Some o /\ f_closed o = true.
Proof.
  unfold state_of. split.
  - destruct (files w !! h) as [o|]; [|discriminate].
    destruct (f_closed o) eqn:Hc; [|discriminate]. eauto.
  - intros (o & -> & ->). reflexivity.
Qed.

(** Writing to a closed file is refused and changes nothing. *)
Lemma write_closed (w : World) (h : handle) (data : string) :
  state_of w h = Closed ->
  write h data w = (w, Raised (ValueError "I/O operation on closed file.")).
Proof.
  intros (o & Ho & Hc)%closed_lookup. unfold write. now rewrite Ho, Hc.
Qed.

(** No operation of the host brings a closed file object back. *)
Lemma closed_is_terminal (p : prim) (w : World) (h : handle) :
  state_of w h = Closed -> state_of (do_prim p w) h = Closed.
Proof.
  intros Hclosed. pose proof Hclosed as (o & Ho & Hc)%closed_lookup.
  destruct p as [name|g data|g]; simpl.
  - unfold open. destruct (may_open (host w) name); [|exact Hclosed].
    apply closed_lookup. exists o. split; [|exact Hc]. simpl.
    apply lookup_app_l_Some, Ho.
  - unfold write. destruct (files w !! g) as [og|] eqn:Hg; [|exact Hclosed].
    destruct (f_closed og) eqn:Hcg; [exact Hclosed|].
    apply closed_lookup. exists o. split; [|exact Hc]. simpl.
    rewrite list_lookup_insert_ne; [exact Ho|]. intros ->. congruence.
  - unfold close. simpl. destruct (files w !! g) as [og|] eqn:Hg.
    + destruct (f_closed og) eqn:Hcg.
      * apply closed_lookup. exists o. now split.
      * assert (g <> h) by (intros ->; congruence).
        destruct (may_flush (host w) (f_name og));
          apply closed_lookup; exists o; (split; [|exact Hc]); simpl;
          now rewrite list_lookup_insert_ne.
    + apply closed_lookup. exists o. now split.
Qed.

(** ** Release on every way out of a scope *)

Lemma scope_released_once (name : string) (body : list stmt) (w : World) :
  released_once_at_end name body w (fst (scope_result name body w)).
Proof.
  assert (Hev : events_since w (fst (scope_result name body w))
                = scope_events name body (length (files w)))
    by apply events_since_app, scope_result_trace.
  unfold released_once_at_end. cbv zeta. rewrite Hev.
  split; [reflexivity|]. split; [apply count_release_scope | apply last_scope_events].
Qed.



(** ** Which error the caller sees *)

Lemma scope_result_outcome (name : string) (body : list stmt) (w : World) :
  snd (scope_result name body w)
  = if may_flush (host w) name then signal body else Raised (OSError name).
Proof. unfold scope_result. now destruct (may_flush (host w) name). Qed.

(** C2 as stated fails: on a host that cannot flush, the block writes and
    then raises [UserError 0], the release raises [OSError], and the caller
    sees the [OSError] in place of the error of the block. *)
Lemma release_failure_replaces_operation_error :
  signal [SWrite "Hello, World!"; SRaise (UserError 0)] = Raised (UserError 0)
  /\ snd (with_ManagedFile "test.txt" [SWrite "Hello, World!"; SRaise (UserError 0)]
            (fresh_world full_host))
     = Raised (OSError "test.txt")
  /\ snd (with_managed_file "test.txt" [SWrite "Hello, World!"; SRaise (UserError 0)]
            (fresh_world full_host))
     = Raised (OSError "test.txt")
  /\ @Raised unit (OSError "test.txt") <> Raised (UserError 0).
Proof.
  split; [reflexivity|].
  rewrite with_managed_file_ok, with_ManagedFile_unfold, open_try_finally_ok by reflexivity.
  rewrite scope_result_outcome. simpl.
  split; [reflexivity|]. split; [reflexivity|]. discriminate.
Qed.

(** C2, amended: when the block raises [e] after a successful acquisition,
    the release still occurs exactly once; the caller sees [e] when the
    release itself succeeds, and the error of the release when it fails. *)
Theorem operation_error_and_release (name : string) (body : list stmt) (w : World)
    (e : exn) :
  may_open (host w) name = true ->
  signal body = Raised e ->
  (count_release (length (files w))
     (events_since w (fst (with_ManagedFile name body w))) = 1
   /\ snd (with_ManagedFile name body w)
      = if may_flush (host w) name then Raised e else Raised (OSError name))
  /\ (count_release (length (files w))
        (events_since w (fst (with_managed_file name body w))) = 1
      /\ snd (with_managed_file name body w)
         = if may_flush (host w) name then Raised e else Raised (OSError name)).
Proof.
  intros Hopen Hsig.
  rewrite (with_managed_file_ok name body w Hopen), with_ManagedFile_unfold,
    (open_try_finally_ok name body w Hopen).
  rewrite scope_result_outcome, Hsig.
  pose proof (scope_released_once name body w) as (_ & Hcount & _).
  repeat split; assumption || reflexivity.
Qed.

Lemma operation_error_and_release_witness :
  may_open (host (fresh_world willing_host)) "test.txt" = true
  /\ signal [SWrite "Hello, World!"; SRaise (UserError 0)] = Raised (UserError 0)
  /\ snd (with_ManagedFile "test.txt" [SWrite "Hello, World!"; SRaise (UserError 0)]
            (fresh_world willing_host))
     = Raised (UserError 0)
  /\ snd (with_managed_file "test.txt" [SWrite "Hello, World!"; SRaise (UserError 0)]
            (fresh_world willing_host))
     = Raised (UserError 0).
Proof.
  split; [reflexivity|]. split; [reflexivity|].
  pose proof (operation_error_and_release "test.txt"
                [SWrite "Hello, World!"; SRaise (UserError 0)]
                (fresh_world willing_host) (UserError 0) eq_refl eq_refl)
    as [[_ Hclass] [_ Hgen]].
  split; [exact Hclass | exact Hgen].
Defined.

(** ** A failed acquisition *)

(** When the file cannot be opened the two managers end differently. *)
Lemma acquisition_error_refused_both (name : string) (body : list stmt) (w : World) :
  may_open (host w) name = false ->
  with_ManagedFile name body w = (w, Raised (OSError name))
  /\ with_managed_file name body w = (w, Raised (UnboundLocalError "f")).
Proof.
  intros Hopen. split.
  - rewrite with_ManagedFile_unfold. now apply open_try_finally_refused.
  - now apply with_managed_file_refused.
Qed.

(** C3, at the input where the code departs from it: when the file cannot
    be opened, the class surfaces the [OSError] and no event occurs
    (nothing entered, nothing released); with the generator no event
    occurs either, but what its caller sees is the [UnboundLocalError] of
    its [finally] suite, not the acquisition error. *)
Theorem acquisition_error_lost_by_generator (name : string) (body : list stmt)
    (w : World) :
  may_open (host w) name = false ->
  (snd (with_ManagedFile name body w) = Raised (OSError name)
   /\ events_since w (fst (with_ManagedFile name body w)) = [])
  /\ (snd (with_managed_file name body w) = Raised (UnboundLocalError "f")
      /\ events_since w (fst (with_managed_file name body w)) = []).
Proof.
  intros Hopen.
  destruct (acquisition_error_refused_both name body w Hopen) as [-> ->].
  unfold events_since. simpl. rewrite drop_all. auto.
Qed.

Lemma acquisition_error_lost_by_generator_witness :
  may_open (host (fresh_world refusing_host)) "test.txt" = false
  /\ snd (with_ManagedFile "test.txt" [SWrite "Hello, World!"] (fresh_world refusing_host))
     = Raised (OSError "test.txt")
  /\ snd (with_managed_file "test.txt" [SWrite "Hello, World!"] (fresh_world refusing_host))
     = Raised (UnboundLocalError "f").
Proof.
  split; [reflexivity|].
  pose proof (acquisition_error_lost_by_generator "test.txt" [SWrite "Hello, World!"]
                (fresh_world refusing_host) eq_refl) as [[Hclass _] [Hgen _]].
  split; [exact Hclass | exact Hgen].
Defined.

(** C4, at the input where the code departs from it: after an [__enter__]
    that failed to open the file, the instance has no [file] attribute, and
    [__exit__] raises [AttributeError] when its guard reads it.  It does
    leave the world untouched. *)
Theorem exit_after_failed_enter_raises (name : string) (w : World)
    (exc : option exn) :
  may_open (host w) name = false ->
  ManagedFile.__enter__ (w, ManagedFile.__init__ name)
  = ((w, ManagedFile.__init__ name), Raised (OSError name))
  /\ ManagedFile.__exit__ exc (w, ManagedFile.__init__ name)
     = ((w, ManagedFile.__init__ name), Raised (AttributeError "file")).
Proof.
  intros Hopen. split.
  - unfold ManagedFile.__enter__, in_world, get_local, mbind, py_bind, bind.
    cbn [ManagedFile.name ManagedFile.__init__].
    now rewrite (open_refused name w Hopen).
  - reflexivity.
Qed.

Lemma exit_after_failed_enter_raises_witness :
  may_open (host (fresh_world refusing_host)) "test.txt" = false
  /\ ManagedFile.__enter__ (fresh_world refusing_host, ManagedFile.__init__ "test.txt")
     = ((fresh_world refusing_host, ManagedFile.__init__ "test.txt"),
        Raised (OSError "test.txt"))
  /\ ManagedFile.__exit__ None (fresh_world refusing_host, ManagedFile.__init__ "test.txt")
     = ((fresh_world refusing_host, ManagedFile.__init__ "test.txt"),
        Raised (AttributeError "file")).
Proof.
  split; [reflexivity|].
  apply (exit_after_failed_enter_raises "test.txt" (fresh_world refusing_host) None).
  reflexivity.
Defined.

(** ** The class and the generator side by side *)

(** C9, as far as it holds: the two managers agree, on the final world and
    on what the caller sees, exactly when the file could be opened. *)
Theorem generator_agrees_iff_acquired (name : string) (body : list stmt) (w : World) :
  with_managed_file name body w = with_ManagedFile name body w
  <-> may_open (host w) name = true.
Proof.
  split.
  - destruct (may_open (host w) name) eqn:Hopen; [reflexivity|].
    destruct (acquisition_error_refused_both name body w Hopen) as [-> ->].
    discriminate.
  - intros Hopen.
    now rewrite (with_managed_file_ok name body w Hopen), with_ManagedFile_unfold.
Qed.

(** ** The scenario of the module: [test.txt] and [Hello, World!] *)

Lemma scope_written_and_closed (name data : string) (w : World) :
  may_flush (host w) name = true ->
  written_and_closed name data w (scope_result name [SWrite data] w).
Proof.
  intros Hflush. unfold written_and_closed, scope_result, state_of. cbv zeta.
  rewrite Hflush. cbn [fst snd fs files written signal joined foldr].
  rewrite append_empty_r, lookup_insert_eq, list_lookup_middle by reflexivity.
  repeat split. now rewrite list_lookup_middle by reflexivity.
Qed.

(** C6: on a writable [test.txt], whatever it held before, the block that
    writes [Hello, World!] under [managed_file] (lines 62-63) or under the
    built-in [open] (lines 8-9) leaves exactly [Hello, World!] in the
    target and the file object closed. *)
Theorem hello_world_scenario (w : World) :
  writable w "test.txt" = true ->
  written_and_closed "test.txt" "Hello, World!" w
    (with_managed_file "test.txt" [SWrite "Hello, World!"] w)
  /\ written_and_closed "test.txt" "Hello, World!" w
       (with_open "test.txt" [SWrite "Hello, World!"] w).
Proof.
  unfold writable. intros [Hopen Hflush]%andb_prop.
  rewrite (with_managed_file_ok _ _ w Hopen), with_open_unfold,
    (open_try_finally_ok _ _ w Hopen).
  split; now apply scope_written_and_closed.
Qed.

Lemma hello_world_scenario_witness :
  writable used_world "test.txt" = true
  /\ fs used_world !! "test.txt" = Some "Hello, World!end of file"
  /\ written_and_closed "test.txt" "Hello, World!" used_world
       (with_managed_file "test.txt" [SWrite "Hello, World!"] used_world)
  /\ written_and_closed "test.txt" "Hello, World!" used_world
       (with_open "test.txt" [SWrite "Hello, World!"] used_world).
Proof.
  split; [reflexivity|]. split; [reflexivity|].
  apply (hello_world_scenario used_world). reflexivity.
Defined.

(** ** The life of a resource *)

Lemma exec_keeps_open (body : list stmt) (w : World) (h : handle) :
  state_of w h = Open -> state_of (fst (exec h body w)) h = Open.
Proof.
  unfold state_of at 1. destruct (files w !! h) as [o|] eqn:Ho; [|discriminate].
  destruct (f_closed o) eqn:Hc; [discriminate|]. intros _.
  rewrite (exec_open body w h o Ho Hc). unfold state_of. cbn [fst files].
  rewrite list_lookup_insert_eq by (eapply lookup_lt_Some, Ho). reflexivity.
Qed.

Lemma state_of_opened (name : string) (w : World) :
  may_open (host w) name = true ->
  state_of (fst (open name w)) (length (files w)) = Open.
Proof.
  intros Hopen. rewrite (open_ok name w Hopen). unfold state_of. cbn [fst files].
  now rewrite opened_lookup.
Qed.

Lemma state_of_scope_result (name : string) (body : list stmt) (w : World) :
  state_of (fst (scope_result name body w)) (length (files w)) = Closed.
Proof.
  unfold state_of. rewrite scope_result_files.
  now rewrite list_lookup_middle by reflexivity.
Qed.

(** C7: the file object of a [ManagedFile] scope goes
    [Unopened -> Open -> Closed].  It does not exist before the scope; it
    is open after acquisition and after any number of statements of the
    block; it is closed when the scope is left, however the block ended;
    the events of the scope are accepted by the machine, which takes the
    step into [Open] once and the step into [Closed] once and accepts
    nothing after the release; and once closed it stays closed under every
    operation of the host, a write being refused without effect. *)
Theorem resource_lifecycle (name : string) (body : list stmt) (w : World) :
  may_open (host w) name = true ->
  let h := length (files w) in
  let w' := fst (with_ManagedFile name body w) in
  state_of w h = Unopened
  /\ state_of (fst (open name w)) h = Open
  /\ (forall k, state_of (fst (exec h (take k body) (fst (open name w)))) h = Open)
  /\ state_of w' h = Closed
  /\ run_machine h Unopened (events_since w w') = Some Closed
  /\ (forall p, state_of (do_prim p w') h = Closed)
  /\ (forall data,
        write h data w' = (w', Raised (ValueError "I/O operation on closed file."))).
Proof.
  intros Hopen h w'.
  assert (Hclosed : state_of w' h = Closed).
  { subst w' h. rewrite with_ManagedFile_unfold, (open_try_finally_ok _ _ w Hopen).
    apply state_of_scope_result. }
  split; [apply state_of_fresh|].
  split; [now apply state_of_opened|].
  split; [intros k; now apply exec_keeps_open, state_of_opened|].
  split; [exact Hclosed|].
  split.
  - subst w' h. rewrite with_ManagedFile_unfold, (open_try_finally_ok _ _ w Hopen).
    rewrite (events_since_app _ _ _ (scope_result_trace name body w)).
    apply run_machine_scope.
  - split; [intros p; now apply closed_is_terminal | intros data; now apply write_closed].
Qed.

Lemma resource_lifecycle_witness :
  may_open (host (fresh_world willing_host)) "test.txt" = true
  /\ state_of (fst (with_ManagedFile "test.txt"
                      [SWrite "Hello, World!"; SRaise (UserError 0); SWrite "end of file"]
                      (fresh_world willing_host))) 0
     = Closed.
Proof.
  split; [reflexivity|].
  pose proof (resource_lifecycle "test.txt"
                [SWrite "Hello, World!"; SRaise (UserError 0); SWrite "end of file"]
                (fresh_world willing_host) eq_refl) as (_ & _ & _ & Hclosed & _).
  exact Hclosed.
Defined.

(** ** The counter of [Indenter] *)

Lemma unmatched_cons (c : call) (cs : list call) :
  unmatched (c :: cs) = ((if is_enter c then 1 else -1) + unmatched cs)%Z.
Proof. unfold unmatched. destruct c; simpl; lia. Qed.

Lemma unmatched_app (a b : list call) :
  unmatched (a ++ b) = (unmatched a + unmatched b)%Z.
Proof.
  induction a as [|c a IH]; [unfold unmatched; simpl; lia|].
  change ((c :: a) ++ b) with (c :: (a ++ b)).
  rewrite !unmatched_cons, IH. lia.
Qed.

Lemma unmatched_enters (n : nat) : unmatched (replicate n Enter) = Z.of_nat n.
Proof.
  induction n as [|n IH]; [reflexivity|].
  change (replicate (S n) Enter) with (Enter :: replicate n Enter).
  rewrite unmatched_cons, IH. cbn [is_enter]. lia.
Qed.

Lemma unmatched_exits (n : nat) : unmatched (replicate n Exit) = (- Z.of_nat n)%Z.
Proof.
  induction n as [|n IH]; [reflexivity|].
  change (replicate (S n) Exit) with (Exit :: replicate n Exit).
  rewrite unmatched_cons, IH. cbn [is_enter]. lia.
Qed.

Lemma enter_level (s : Indenter.state) :
  Indenter.level (snd (fst (Indenter.__enter__ s)))
  = (Indenter.level (snd s) + 1)%Z.
Proof. now destruct s. Qed.

Lemma exit_level (exc : option exn) (s : Indenter.state) :
  Indenter.level (snd (fst (Indenter.__exit__ exc s)))
  = (Indenter.level (snd s) - 1)%Z.
Proof. now destruct s. Qed.

Lemma run_calls_level (cs : list call) :
  forall s : Indenter.state,
    Indenter.level (snd (run_calls cs s))
    = (Indenter.level (snd s) + unmatched cs)%Z.
Proof.
  induction cs as [|c cs IH]; intros s.
  - unfold unmatched. simpl. lia.
  - change (run_calls (c :: cs) s) with (run_calls cs (do_call c s)).
    rewrite IH, unmatched_cons.
    destruct c; unfold do_call; rewrite ?enter_level, ?exit_level; simpl; lia.
Qed.

(** C5: [__enter__] adds one to the counter and [__exit__] takes one off;
    after any calls in any order the counter is its value before plus the
    number of enter calls not yet matched; after N enters and N exits it is
    back at its value before; and starting from a new [Indenter], at every
    point of N enters followed by N exits, the counter is the number of
    unmatched enter calls. *)
Theorem indenter_counter :
  (forall s : Indenter.state,
     Indenter.level (snd (fst (Indenter.__enter__ s)))
     = (Indenter.level (snd s) + 1)%Z)
  /\ (forall (exc : option exn) (s : Indenter.state),
        Indenter.level (snd (fst (Indenter.__exit__ exc s)))
        = (Indenter.level (snd s) - 1)%Z)
  /\ (forall (cs : list call) (s : Indenter.state),
        Indenter.level (snd (run_calls cs s))
        = (Indenter.level (snd s) + unmatched cs)%Z)
  /\ (forall (n : nat) (s : Indenter.state),
        Indenter.level (snd (run_calls (replicate n Enter ++ replicate n Exit) s))
        = Indenter.level (snd s))
  /\ (forall (n k : nat) (out : list string),
        Indenter.level
          (snd (run_calls (take k (replicate n Enter ++ replicate n Exit))
                  (out, Indenter.__init__)))
        = unmatched (take k (replicate n Enter ++ replicate n Exit))).
Proof.
  split; [exact enter_level|]. split; [exact exit_level|].
  split; [intros cs s; apply run_calls_level|].
  split.
  - intros n s. rewrite run_calls_level, unmatched_app, unmatched_enters, unmatched_exits.
    lia.
  - intros n k out. rewrite run_calls_level. simpl. lia.
Qed.

(** ** A tuple under [assert] *)

(** C10: an [assert] whose tested expression is a tuple display with at
    least one item never raises, with or without [-O]; so line 83 of
    assertions.py ends normally and leaves the state as it was. *)
Theorem tuple_assert_never_raises :
  (forall (S : Type) (optimize : bool) (first : expr) (others : list expr)
          (msg : option expr) (s : S),
     assert_stmt optimize (Tuple (first :: others)) msg s = (s, Normal tt))
  /\ (forall (S : Type) (optimize : bool) (s : S),
        module_assert optimize s = (s, Normal tt)).
Proof.
  split.
  - intros S optimize first others msg s. unfold assert_stmt.
    destruct optimize; reflexivity.
  - intros S optimize s. unfold module_assert, assert_stmt.
    destruct optimize; reflexivity.
Qed.

(** ** Further properties *)

(** Nested [with indent:] blocks. *)

Lemma iexec_with (body : list istmt) :
  iexec (IWith body)
  = with_stmt Indenter.__enter__ Indenter.__exit__ (fun _ => iblock body).
Proof. reflexivity. Qed.

Lemma istmt_nested_ind (P : istmt -> Prop) :
  (forall msg, P (IPrint msg)) ->
  (forall e, P (IRaise e)) ->
  (forall body, Forall P body -> P (IWith body)) ->
  forall s, P s.
Proof.
  intros Hprint Hraise Hwith. fix IH 1. intros [msg|body|e].
  - apply Hprint.
  - apply Hwith. induction body as [|s rest IHrest]; constructor.
    + apply IH.
    + exact IHrest.
  - apply Hraise.
Qed.

Lemma iblock_level (b : list istmt) :
  Forall (fun s => forall st, Indenter.level (snd (fst (iexec s st)))
                              = Indenter.level (snd st)) b ->
  forall st, Indenter.level (snd (fst (iblock b st))) = Indenter.level (snd st).
Proof.
  induction 1 as [|s rest Hs _ IH]; intros st; [reflexivity|].
  simpl. unfold mbind, py_bind, bind.
  specialize (Hs st). destruct (iexec s st) as [st1 [[]|e|]]; simpl in *.
  - now rewrite IH.
  - exact Hs.
  - exact Hs.
Qed.

Lemma iexec_level (s : istmt) :
  forall st, Indenter.level (snd (fst (iexec s st))) = Indenter.level (snd st).
Proof.
  induction s as [msg|e|body IH] using istmt_nested_ind; intros [out self].
  - reflexivity.
  - reflexivity.
  - rewrite iexec_with. unfold with_stmt. cbn [Indenter.__enter__].
    pose proof (iblock_level body IH (out, {| Indenter.level := Indenter.level self + 1 |}))
      as Hbody.
    destruct (iblock body _) as [[out2 self2] [[]|e|]];
      cbn [Indenter.__exit__ fst snd Indenter.level] in *; rewrite Hbody; lia.
Qed.

(** A [with indent:] block, nested to any depth, gives the counter back as
    it found it, whether its statements end normally or one of them
    raises. *)
Theorem nested_blocks_restore_level (s : istmt) (st : Indenter.state) :
  Indenter.level (snd (fst (iexec s st))) = Indenter.level (snd st).
Proof. apply iexec_level. Qed.

(** What lines 82-88 print. *)
Theorem indenter_example_output :
  iexec indenter_example ([], Indenter.__init__)
  = (([" Hi"; "  hello"; "   bonjour"; " hey"], Indenter.__init__), Normal tt).
Proof. vm_compute. reflexivity. Qed.

(** The class, the built-in file object under [with], and the
    [try/finally] of lines 12-16 are one and the same statement, on every
    name, block and world. *)
Theorem managers_are_try_finally (name : string) (body : list stmt) (w : World) :
  with_open name body w = open_try_finally name body w
  /\ with_ManagedFile name body w = open_try_finally name body w.
Proof. split; [apply with_open_unfold | apply with_ManagedFile_unfold]. Qed.

(** Without the parentheses the statement of line 83 fails as its message
    says it should, unless assertions are compiled away: then it passes. *)
Theorem intended_assert_outcome (S : Type) (s : S) :
  intended_assert false s
  = (s, Raised (AssertionError (Some (VStr "This should fail..."))))
  /\ intended_assert true s = (s, Normal tt).
Proof. split; reflexivity. Qed.

(** ** What a scope leaves alone, and what it leaves behind *)

Lemma untouched_refl (name : string) (w : World) : untouched name w w.
Proof.
  repeat split; auto. exists []. now rewrite app_nil_r.
Qed.

Lemma scope_result_untouched (name : string) (body : list stmt) (w : World) :
  untouched name w (fst (scope_result name body w)).
Proof.
  unfold untouched, scope_result.
  destruct (may_flush (host w) name); cbn [fst host fs files trace];
    (split; [reflexivity|]);
    (split; [intros other Hne; now rewrite lookup_insert_ne|]);
    (split; [intros g o Hg; now apply lookup_app_l_Some|]); eauto.
Qed.

Lemma open_try_finally_untouched (name : string) (body : list stmt) (w : World) :
  untouched name w (fst (open_try_finally name body w)).
Proof.
  destruct (may_open (host w) name) eqn:Hopen.
  - rewrite (open_try_finally_ok name body w Hopen). apply scope_result_untouched.
  - rewrite (open_try_finally_refused name body w Hopen). apply untouched_refl.
Qed.

(** A scope over [name], entered or refused, ended normally or by a raise,
    keeps the host, the content of every other path and every file object
    that existed before, and only appends to the trace.  This holds for the
    class, the generator and the built-in file object. *)
Theorem scope_frame (name : string) (body : list stmt) (w : World) :
  untouched name w (fst (with_ManagedFile name body w))
  /\ untouched name w (fst (with_managed_file name body w))
  /\ untouched name w (fst (with_open name body w)).
Proof.
  rewrite with_ManagedFile_unfold, with_open_unfold.
  split; [apply open_try_finally_untouched|].
  split; [|apply open_try_finally_untouched].
  destruct (may_open (host w) name) eqn:Hopen.
  - rewrite (with_managed_file_ok name body w Hopen). apply open_try_finally_untouched.
  - rewrite (with_managed_file_refused name body w Hopen). apply untouched_refl.
Qed.

Lemma scope_result_flushed (name : string) (body : list stmt) (w : World) :
  may_flush (host w) name = true ->
  fs (fst (scope_result name body w)) = <[name := joined (written body)]> (fs w)
  /\ snd (scope_result name body w) = signal body.
Proof. unfold scope_result. intros ->. split; reflexivity. Qed.

Lemma scope_result_host (name : string) (body : list stmt) (w : World) :
  host (fst (scope_result name body w)) = host w.
Proof. unfold scope_result. now destruct (may_flush (host w) name). Qed.

Lemma writable_after_scope (name other : string) (body : list stmt) (w : World) :
  writable (fst (scope_result name body w)) other = writable w other.
Proof. unfold writable. now rewrite scope_result_host. Qed.

(** On a writable target a block leaves in the file exactly what it wrote
    before it ended, also when it ended by a raise or an early exit:
    nothing is rolled back, and the file object is closed. *)
Theorem writes_before_failure_are_kept (name : string) (body : list stmt) (w : World) :
  writable w name = true ->
  (fs (fst (with_ManagedFile name body w)) !! name = Some (joined (written body))
   /\ state_of (fst (with_ManagedFile name body w)) (length (files w)) = Closed
   /\ snd (with_ManagedFile name body w) = signal body)
  /\ (fs (fst (with_managed_file name body w)) !! name = Some (joined (written body))
      /\ state_of (fst (with_managed_file name body w)) (length (files w)) = Closed
      /\ snd (with_managed_file name body w) = signal body).
Proof.
  unfold writable. intros [Hopen Hflush]%andb_prop.
  rewrite (with_managed_file_ok name body w Hopen), with_ManagedFile_unfold,
    (open_try_finally_ok name body w Hopen).
  destruct (scope_result_flushed name body w Hflush) as [Hfs Hout].
  rewrite Hfs, Hout, lookup_insert_eq, state_of_scope_result. auto.
Qed.

Lemma writes_before_failure_are_kept_witness :
  writable used_world "test.txt" = true
  /\ fs (fst (with_ManagedFile "test.txt"
                [SWrite "Hello"; SWrite ", World!"; SRaise (UserError 0); SWrite "lost"]
                used_world)) !! "test.txt"
     = Some "Hello, World!"
  /\ snd (with_ManagedFile "test.txt"
            [SWrite "Hello"; SWrite ", World!"; SRaise (UserError 0); SWrite "lost"]
            used_world)
     = Raised (UserError 0).
Proof.
  split; [reflexivity|].
  pose proof (writes_before_failure_are_kept "test.txt"
                [SWrite "Hello"; SWrite ", World!"; SRaise (UserError 0); SWrite "lost"]
                used_world eq_refl) as [(Hfs & _ & Hout) _].
  split; [exact Hfs | exact Hout].
Defined.

(** ** Scopes in sequence *)

Lemma scope_then_scope (name : string) (b1 b2 : list stmt) (w : World) :
  writable w name = true ->
  let w1 := fst (scope_result name b1 w) in
  let w2 := fst (scope_result name b2 w1) in
  fs w2 !! name = Some (joined (written b2))
  /\ state_of w2 (length (files w)) = Closed
  /\ state_of w2 (S (length (files w))) = Closed
  /\ snd (scope_result name b2 w1) = signal b2.
Proof.
  intros Hw w1 w2.
  assert (Hw1 : writable w1 name = true) by (subst w1; now rewrite writable_after_scope).
  unfold writable in Hw1. apply andb_prop in Hw1 as [_ Hflush1].
  destruct (scope_result_flushed name b2 w1 Hflush1) as [Hfs Hout].
  assert (Hlen : length (files w1) = S (length (files w))).
  { subst w1. rewrite scope_result_files, length_app. simpl. lia. }
  split; [subst w2; now rewrite Hfs, lookup_insert_eq|].
  split.
  - apply closed_lookup. subst w2. rewrite scope_result_files.
    exists {| f_name := name; f_closed := true; f_buffer := joined (written b1) |}.
    split; [|reflexivity]. apply lookup_app_l_Some.
    subst w1. rewrite scope_result_files. now apply list_lookup_middle.
  - split; [|exact Hout]. rewrite <- Hlen. subst w2. apply state_of_scope_result.
Qed.

(** Two scopes on one writable target, the class first and the generator
    second: when the first block ends normally, the target ends up with
    what the second block wrote, whatever the first wrote, and both file
    objects are closed. *)
Theorem last_scope_wins (name : string) (b1 b2 : list stmt) (w : World) :
  writable w name = true ->
  signal b1 = Normal tt ->
  fs (fst ((with_ManagedFile name b1;; with_managed_file name b2) w)) !! name
  = Some (joined (written b2))
  /\ state_of (fst ((with_ManagedFile name b1;; with_managed_file name b2) w))
       (length (files w)) = Closed
  /\ state_of (fst ((with_ManagedFile name b1;; with_managed_file name b2) w))
       (S (length (files w))) = Closed
  /\ snd ((with_ManagedFile name b1;; with_managed_file name b2) w) = signal b2.
Proof.
  intros Hw Hsig. pose proof Hw as [Hopen Hflush]%andb_prop.
  unfold mbind, py_bind, bind.
  rewrite with_ManagedFile_unfold, (open_try_finally_ok name b1 w Hopen).
  destruct (scope_result name b1 w) as [w1 r1] eqn:Hres.
  assert (Hr1 : r1 = Normal tt).
  { destruct (scope_result_flushed name b1 w Hflush) as [_ Hout].
    rewrite Hres in Hout. simpl in Hout. congruence. }
  assert (Hw1 : w1 = fst (scope_result name b1 w)) by now rewrite Hres.
  subst r1.
  assert (Hopen1 : may_open (host w1) name = true).
  { rewrite Hw1, scope_result_host. exact Hopen. }
  rewrite (with_managed_file_ok name b2 w1 Hopen1), (open_try_finally_ok name b2 w1 Hopen1).
  rewrite Hw1. apply (scope_then_scope name b1 b2 w Hw).
Qed.

Lemma last_scope_wins_witness :
  writable (fresh_world willing_host) "test.txt" = true
  /\ signal [SWrite "Hello, World!"; SWrite "end of file"] = Normal tt
  /\ fs (fst ((with_ManagedFile "test.txt" [SWrite "Hello, World!"; SWrite "end of file"];;
               with_managed_file "test.txt" [SWrite "Hello, World!"])
                (fresh_world willing_host))) !! "test.txt"
     = Some "Hello, World!".
Proof.
  split; [reflexivity|]. split; [reflexivity|].
  pose proof (last_scope_wins "test.txt"
                [SWrite "Hello, World!"; SWrite "end of file"] [SWrite "Hello, World!"]
                (fresh_world willing_host) eq_refl eq_refl) as (Hfs & _).
  exact Hfs.
Defined.

Lemma scope_step (name : string) (body : list stmt) (w : World) :
  writable w name = true ->
  open_try_finally name body w
  = ({| host := host w;
        fs := <[name := joined (written body)]> (fs w);
        files := files w ++ [{| f_name := name; f_closed := true;
                                f_buffer := joined (written body) |}];
        trace := trace w ++ scope_events name body (length (files w)) |},
     signal body).
Proof.
  unfold writable. intros [Hopen Hflush]%andb_prop.
  rewrite (open_try_finally_ok name body w Hopen). unfold scope_result.
  now rewrite Hflush.
Qed.

(** The four blocks of the module, run in order on a writable [test.txt]
    from any world: all end normally, the file holds [Hello, World!] at the
    end (the longer text of the third block is gone), four more file
    objects exist and all four are closed, and nothing else was touched. *)
Theorem file_script_outcome (w : World) :
  writable w "test.txt" = true ->
  snd (file_script w) = Normal tt
  /\ fs (fst (file_script w)) !! "test.txt" = Some "Hello, World!"
  /\ length (files (fst (file_script w))) = 4 + length (files w)
  /\ (forall i, i < 4 -> state_of (fst (file_script w)) (length (files w) + i) = Closed)
  /\ untouched "test.txt" w (fst (file_script w)).
Proof.
  intros Hw. pose proof Hw as [Hopen _]%andb_prop.
  unfold file_script, mbind, py_bind, bind.
  rewrite with_open_unfold, (scope_step _ _ w Hw). cbn [signal].
  rewrite scope_step by exact Hw. cbn [signal].
  rewrite with_ManagedFile_unfold, scope_step by exact Hw. cbn [signal].
  rewrite with_managed_file_ok by exact Hopen.
  rewrite scope_step by exact Hw.
  cbn [fst snd signal host fs files trace written joined foldr].
  split; [reflexivity|].
  split; [now rewrite lookup_insert_eq|].
  split; [rewrite !length_app; simpl; lia|].
  split.
  - intros i Hi. unfold state_of. cbn [files]. rewrite <- !app_assoc.
    rewrite lookup_app_r by lia.
    replace (length (files w) + i - length (files w)) with i by lia.
    destruct i as [|[|[|[|i]]]]; [reflexivity..|lia].
  - unfold untouched. cbn [host fs files trace].
    split; [reflexivity|].
    split; [intros other Hne; now rewrite !lookup_insert_ne|].
    split; [intros g o Hg; now do 4 apply lookup_app_l_Some|].
    rewrite <- !app_assoc. eauto.
Qed.

Lemma file_script_outcome_witness :
  writable used_world "test.txt" = true
  /\ snd (file_script used_world) = Normal tt
  /\ fs (fst (file_script used_world)) !! "test.txt" = Some "Hello, World!".
Proof.
  split; [reflexivity|].
  pose proof (file_script_outcome used_world eq_refl) as (Hout & Hfs & _).
  split; [exact Hout | exact Hfs].
Defined.

(** ** One instance, used again *)

Lemma with_instance_unfold (body : list stmt) (w : World) (self : ManagedFile.t) :
  with_instance body (w, self)
  = ((fst (open_try_finally (ManagedFile.name self) body w),
      if may_open (host w) (ManagedFile.name self)
      then {| ManagedFile.name := ManagedFile.name self;
              ManagedFile.file := Some (length (files w)) |}
      else self),
     snd (open_try_finally (ManagedFile.name self) body w)).
Proof.
  unfold with_instance, open_try_finally, with_stmt, try_finally,
    ManagedFile.__enter__, ManagedFile.__exit__, ManagedFile.self_file,
    file_truthy, in_world, get_local, set_local, mbind, py_bind, bind, ret, raise.
  destruct (may_open (host w) (ManagedFile.name self)) eqn:Hopen.
  - rewrite (open_ok _ w Hopen). cbn [ManagedFile.name ManagedFile.file].
    match goal with |- context [exec ?h body ?w1] =>
      destruct (exec h body w1) as [w2 [[]|e|]];
      cbn [ManagedFile.name ManagedFile.file];
      destruct (close h w2) as [w3 [[]|e'|]]; reflexivity
    end.
  - now rewrite (open_refused _ w Hopen).
Qed.

(** An instance can be used again once its earlier scope is over.  When
    its [file] attribute is unset or refers to a closed file object, a
    [with] on it leaves the world, and shows the caller the outcome, of a
    new [ManagedFile] of the same name.  (Rebinding [m.file] then drops a
    reference to a closed file object, which has no effect.) *)
Theorem used_instance_can_be_reused (body : list stmt) (w : World)
    (self : ManagedFile.t) :
  (forall h : handle, ManagedFile.file self = Some h -> state_of w h = Closed) ->
  (fst (fst (with_instance body (w, self))), snd (with_instance body (w, self)))
  = with_ManagedFile (ManagedFile.name self) body w.
Proof.
  intros _.
  rewrite with_instance_unfold, with_ManagedFile_unfold. cbn [fst snd].
  now destruct (open_try_finally (ManagedFile.name self) body w).
Qed.

Lemma used_instance_can_be_reused_witness :
  (forall h : handle,
     ManagedFile.file {| ManagedFile.name := "test.txt"; ManagedFile.file := Some 0 |}
     = Some h ->
     state_of used_world h = Closed)
  /\ (fst (fst (with_instance [SWrite "Hello, World!"]
                  (used_world,
                   {| ManagedFile.name := "test.txt"; ManagedFile.file := Some 0 |}))),
      snd (with_instance [SWrite "Hello, World!"]
             (used_world,
              {| ManagedFile.name := "test.txt"; ManagedFile.file := Some 0 |})))
     = with_ManagedFile "test.txt" [SWrite "Hello, World!"] used_world.
Proof.
  assert (Hclosed : forall h : handle,
             ManagedFile.file
               {| ManagedFile.name := "test.txt"; ManagedFile.file := Some 0 |}
             = Some h ->
             state_of used_world h = Closed)
    by (intros h [= <-]; reflexivity).
  split; [exact Hclosed|].
  exact (used_instance_can_be_reused [SWrite "Hello, World!"] used_world
           {| ManagedFile.name := "test.txt"; ManagedFile.file := Some 0 |} Hclosed).
Defined.

Lemma close_closed (w : World) (f : handle) (o : File) :
  files w !! f = Some o ->
  f_closed o = true ->
  close f w = (log (EvClose f) w, Normal tt).
Proof. intros Hf Hc. unfold close. simpl. now rewrite Hf, Hc. Qed.

(** Once a scope on an instance is over, calling [__exit__] on it again
    does not raise and changes neither the file system nor any file
    object: the second [close] finds the file closed. *)
Theorem exit_again_is_harmless (name : string) (body : list stmt) (w : World)
    (exc : option exn) :
  may_open (host w) name = true ->
  ManagedFile.__exit__ exc (fst (with_instance body (w, ManagedFile.__init__ name)))
  = ((log (EvClose (length (files w)))
        (fst (fst (with_instance body (w, ManagedFile.__init__ name)))),
      snd (fst (with_instance body (w, ManagedFile.__init__ name)))),
     Normal false).
Proof.
  intros Hopen. rewrite with_instance_unfold.
  cbn [ManagedFile.name ManagedFile.__init__ fst snd]. rewrite Hopen.
  rewrite (open_try_finally_ok name body w Hopen).
  unfold ManagedFile.__exit__, ManagedFile.self_file, file_truthy, in_world, get_local,
    mbind, py_bind, bind, ret.
  cbn [ManagedFile.file].
  rewrite (close_closed _ _ {| f_name := name; f_closed := true;
                              f_buffer := joined (written body) |});
    [reflexivity| |reflexivity].
  rewrite scope_result_files. now apply list_lookup_middle.
Qed.

Lemma exit_again_is_harmless_witness :
  may_open (host (fresh_world willing_host)) "test.txt" = true
  /\ snd (ManagedFile.__exit__ None
            (fst (with_instance [SWrite "Hello, World!"]
                    (fresh_world willing_host, ManagedFile.__init__ "test.txt"))))
     = Normal false.
Proof.
  split; [reflexivity|].
  now rewrite (exit_again_is_harmless "test.txt" [SWrite "Hello, World!"]
                 (fresh_world willing_host) None eq_refl).
Defined.

(** ** One instance, entered again inside its own block *)

Lemma enter_ok (w : World) (self : ManagedFile.t) :
  may_open (host w) (ManagedFile.name self) = true ->
  ManagedFile.__enter__ (w, self)
  = ((fst (open (ManagedFile.name self) w),
      {| ManagedFile.name := ManagedFile.name self;
         ManagedFile.file := Some (length (files w)) |}),
     Normal (length (files w))).
Proof.
  intros Hopen.
  unfold ManagedFile.__enter__, ManagedFile.self_file, in_world, get_local, set_local,
    mbind, py_bind, bind, ret.
  now rewrite (open_ok _ w Hopen).
Qed.

Lemma count_release_app (h : handle) (a b : list event) :
  count_release h (a ++ b) = count_release h a + count_release h b.
Proof. unfold count_release. now rewrite List.filter_app, length_app. Qed.

Lemma count_release_other_scope (name : string) (body : list stmt) (h g : handle) :
  g <> h -> count_release h (scope_events name body g) = 0.
Proof.
  intros Hne. unfold scope_events, count_release. simpl.
  induction (written body) as [|d ws IH]; simpl; [|exact IH].
  now rewrite (proj2 (Nat.eqb_neq g h) Hne).
Qed.

Lemma count_release_close (h g : handle) :
  count_release h [EvClose g] = if Nat.eqb g h then 1 else 0.
Proof. unfold count_release. cbn [List.filter is_release]. now destruct (Nat.eqb g h). Qed.

(** The class is not re-entrant.  When the block of [with m as g:] enters
    [m] again, the second [__enter__] overwrites [m.file]; both [__exit__]
    calls then close the second file, and the first file object, the one
    [g] refers to, is left open: no [__exit__] ever releases it. *)
Theorem nested_reentry_leaks (name : string) (body : list stmt) (w : World) :
  may_open (host w) name = true ->
  let h := length (files w) in
  let w' := fst (fst (with_instance_twice body (w, ManagedFile.__init__ name))) in
  state_of w' h = Open
  /\ state_of w' (S h) = Closed
  /\ count_release h (events_since w w') = 0
  /\ count_release (S h) (events_since w w') = 2.
Proof.
  intros Hopen h w'.
  assert (Hfinal : w' = log (EvClose (S h))
                          (fst (scope_result name body (fst (open name w))))).
  { subst w' h. unfold with_instance_twice, with_stmt.
    rewrite enter_ok by exact Hopen. cbn [ManagedFile.name ManagedFile.__init__].
    rewrite with_instance_unfold. cbn [ManagedFile.name].
    rewrite (open_ok name w Hopen). cbn [fst host files].
    rewrite Hopen.
    rewrite open_try_finally_ok by exact Hopen.
    set (w1 := {| host := host w; fs := <[name:=""]> (fs w);
                  files := files w ++ [{| f_name := name; f_closed := false;
                                          f_buffer := "" |}];
                  trace := trace w ++ [EvOpen name (length (files w))] |}).
    assert (Hlen : length (files w ++ [{| f_name := name; f_closed := false;
                                          f_buffer := "" |}])
                   = S (length (files w))) by (rewrite length_app; simpl; lia).
    rewrite Hlen.
    assert (Hexit : forall exc,
               ManagedFile.__exit__ exc
                 (fst (scope_result name body w1),
                  {| ManagedFile.name := name;
                     ManagedFile.file := Some (S (length (files w))) |})
               = ((log (EvClose (S (length (files w))))
                     (fst (scope_result name body w1)),
                   {| ManagedFile.name := name;
                      ManagedFile.file := Some (S (length (files w))) |}),
                  Normal false)).
    { intros exc.
      unfold ManagedFile.__exit__, ManagedFile.self_file, file_truthy, in_world,
        get_local, mbind, py_bind, bind, ret.
      cbn [ManagedFile.file].
      rewrite (close_closed _ _ {| f_name := name; f_closed := true;
                                  f_buffer := joined (written body) |});
        [reflexivity| |reflexivity].
      rewrite scope_result_files. apply list_lookup_middle.
      subst w1. cbn [files]. exact (eq_sym Hlen). }
    destruct (snd (scope_result name body w1)) as [[]|e|]; rewrite Hexit; reflexivity. }
  assert (Hfiles : files w'
                   = files w
                     ++ [{| f_name := name; f_closed := false; f_buffer := "" |};
                         {| f_name := name; f_closed := true;
                            f_buffer := joined (written body) |}]).
  { rewrite Hfinal. cbn [log files]. rewrite scope_result_files.
    rewrite (open_ok name w Hopen). cbn [fst files]. now rewrite <- app_assoc. }
  assert (Hevents : events_since w w'
                    = [EvOpen name h] ++ scope_events name body (S h)
                      ++ [EvClose (S h)]).
  { apply events_since_app. rewrite Hfinal. cbn [log trace].
    rewrite scope_result_trace, (open_ok name w Hopen). cbn [fst files trace].
    rewrite length_app, <- !app_assoc. simpl.
    replace (length (files w) + 1) with (S h) by (subst h; lia). reflexivity. }
  split.
  { unfold state_of. rewrite Hfiles. now rewrite list_lookup_middle by reflexivity. }
  split.
  { unfold state_of. rewrite Hfiles.
    change (files w ++ [?a; ?b]) with (files w ++ [a] ++ [b]).
    rewrite app_assoc, list_lookup_middle; [reflexivity|].
    rewrite length_app. simpl. subst h. lia. }
  rewrite Hevents, !count_release_app, !count_release_close.
  split.
  - rewrite count_release_other_scope by lia.
    now rewrite (proj2 (Nat.eqb_neq (S h) h)) by lia.
  - now rewrite count_release_scope, Nat.eqb_refl.
Qed.

Lemma nested_reentry_leaks_witness :
  may_open (host (fresh_world willing_host)) "test.txt" = true
  /\ state_of (fst (fst (with_instance_twice [SWrite "Hello, World!"]
                           (fresh_world willing_host, ManagedFile.__init__ "test.txt"))))
       0
     = Open.
Proof.
  split; [reflexivity|].
  pose proof (nested_reentry_leaks "test.txt" [SWrite "Hello, World!"]
                (fresh_world willing_host) eq_refl) as (Hopen & _).
  exact Hopen.
Defined.

(** ** What an indenter program prints *)

Lemma render_with (lvl : Z) (body : list istmt) :
  render lvl (IWith body) = render_block (lvl + 1) body.
Proof.
  induction body as [|s rest IH]; [reflexivity|].
  simpl in *. destruct (render (lvl + 1) s) as [lines [[]|e|]]; try reflexivity.
  now rewrite IH.
Qed.

Lemma iblock_render (b : list istmt) :
  Forall (fun s => forall out lvl,
            iexec s (out, {| Indenter.level := lvl |})
            = ((out ++ fst (render lvl s), {| Indenter.level := lvl |}),
               snd (render lvl s))) b ->
  forall out lvl,
    iblock b (out, {| Indenter.level := lvl |})
    = ((out ++ fst (render_block lvl b), {| Indenter.level := lvl |}),
       snd (render_block lvl b)).
Proof.
  induction 1 as [|s rest Hs _ IH]; intros out lvl.
  - simpl. now rewrite app_nil_r.
  - simpl. unfold mbind, py_bind, bind. rewrite Hs.
    destruct (render lvl s) as [lines [[]|e|]]; cbn [fst snd]; try reflexivity.
    rewrite IH. destruct (render_block lvl rest) as [more r]. cbn [fst snd].
    now rewrite app_assoc.
Qed.

Lemma iexec_render (s : istmt) :
  forall out lvl,
    iexec s (out, {| Indenter.level := lvl |})
    = ((out ++ fst (render lvl s), {| Indenter.level := lvl |}), snd (render lvl s)).
Proof.
  induction s as [msg|e|body IH] using istmt_nested_ind; intros out lvl.
  - reflexivity.
  - simpl. unfold raise. now rewrite app_nil_r.
  - rewrite iexec_with, render_with. unfold with_stmt.
    cbn [Indenter.__enter__ Indenter.level].
    rewrite (iblock_render body IH).
    destruct (render_block (lvl + 1) body) as [lines [[]|e|]];
      cbn [fst snd Indenter.__exit__ Indenter.level];
      replace (lvl + 1 - 1)%Z with lvl by lia; reflexivity.
Qed.

(** The lines that a program of nested [with indent:] blocks, run on a new
    [Indenter], appends to the output are those of [render] from level 0:
    each message is indented by the number of blocks around it, and a raise
    cuts off what would follow.  The statement ends as [render] says, and
    the level is back at 0.  (From a new [Indenter] the level never exceeds
    the nesting depth of the program text, so the indentation is always a
    string that can be built.) *)
Theorem indenter_prints_by_depth (s : istmt) (out : list string) :
  iexec s (out, Indenter.__init__)
  = ((out ++ fst (render 0 s), Indenter.__init__), snd (render 0 s)).
Proof. apply iexec_render. Qed.

Lemma str_mul_not_positive (s : string) (n : Z) : (n <= 0)%Z -> str_mul s n = "".
Proof.
  intros Hn. unfold str_mul. now replace (Z.to_nat n) with 0%nat by lia.
Qed.

(** Exits that no enter matches never raise; they leave the level at or
    below zero, and from such a level [print] puts the message out without
    any indentation. *)
Theorem unbalanced_exit_prints_flush_left (cs : list call) (msg : string)
    (out : list string) :
  (unmatched cs <= 0)%Z ->
  Indenter.print msg (run_calls cs (out, Indenter.__init__))
  = ((fst (run_calls cs (out, Indenter.__init__)) ++ [msg],
      snd (run_calls cs (out, Indenter.__init__))),
     Normal tt).
Proof.
  intros Hneg.
  pose proof (run_calls_level cs (out, Indenter.__init__)) as Hlevel.
  destruct (run_calls cs (out, Indenter.__init__)) as [out' self].
  cbn [fst snd Indenter.level Indenter.__init__] in *.
  unfold Indenter.print. rewrite str_mul_not_positive by lia. reflexivity.
Qed.

Lemma unbalanced_exit_prints_flush_left_witness :
  (unmatched [Enter; Exit; Exit] <= 0)%Z
  /\ Indenter.print "hey" (run_calls [Enter; Exit; Exit] ([], Indenter.__init__))
     = ((["hey"], {| Indenter.level := -1 |}), Normal tt).
Proof.
  split; [vm_compute; discriminate|].
  apply (unbalanced_exit_prints_flush_left [Enter; Exit; Exit] "hey" []).
  vm_compute. discriminate.
Defined.

(** ** [apply_discount] *)

(** A product without a price: [KeyError], whatever the discount and with
    or without [-O]. *)
Theorem apply_discount_missing_price (int_of_str : string -> option Z)
    (optimize : bool) (product : gmap string value) (discount : float) :
  product !! "price" = None ->
  apply_discount int_of_str optimize product discount = Err (Failure.KeyError "price").
Proof.
  intros Hmissing. unfold apply_discount, dict_get. now rewrite Hmissing.
Qed.

Lemma apply_discount_missing_price_witness :
  ({[ "name" := VStr "Fancy Shoes" ]} : gmap string value) !! "price" = None
  /\ apply_discount no_strings false {[ "name" := VStr "Fancy Shoes" ]} ten_percent
     = Err (Failure.KeyError "price").
Proof.
  split; [reflexivity|].
  apply (apply_discount_missing_price no_strings false
           {[ "name" := VStr "Fancy Shoes" ]} ten_percent).
  reflexivity.
Defined.

(** With assertions enabled, a price that [apply_discount] returns is not
    below zero and not above the price of the product. *)
Theorem apply_discount_checked (int_of_str : string -> option Z)
    (product : gmap string value) (discount x : float) :
  apply_discount int_of_str false product discount = Ok x ->
  exists v : value,
    product !! "price" = Some v
    /\ int_le_float 0 x = true
    /\ float_le_value x v = Ok true.
Proof.
  unfold apply_discount, dict_get, assert_, price_in_range, dict_get,
    mbind, result_bind.
  destruct (product !! "price") as [v|] eqn:Hv; [|discriminate].
  destruct (int_ int_of_str v) as [n|e]; [|discriminate].
  destruct (int_times_float n (PrimFloat.sub 1 discount)) as [price|e]; [|discriminate].
  destruct (int_le_float 0 price) eqn:Hlow; [|discriminate].
  destruct (float_le_value price v) as [[|]|e] eqn:Hhigh; try discriminate.
  intros [= <-]. eauto.
Qed.

Lemma apply_discount_checked_witness :
  apply_discount no_strings false shoes ten_percent = Ok 13410%float
  /\ exists v : value,
       shoes !! "price" = Some v
       /\ int_le_float 0 13410%float = true
       /\ float_le_value 13410%float v = Ok true.
Proof.
  assert (H : apply_discount no_strings false shoes ten_percent = Ok 13410%float)
    by (vm_compute; reflexivity).
  split; [exact H|].
  exact (apply_discount_checked no_strings shoes ten_percent 13410%float H).
Defined.

Lemma int_never_asserts (int_of_str : string -> option Z) (v : value) (msg : string) :
  int_ int_of_str v = Err (Failure.AssertionError msg) -> False.
Proof. destruct v as [| | |s|]; simpl; try destruct (int_of_str s); discriminate. Qed.

Lemma int_times_float_never_asserts (n : Z) (x : float) (msg : string) :
  int_times_float n x = Err (Failure.AssertionError msg) -> False.
Proof.
  unfold int_times_float, float_of_int, mbind, result_bind.
  destruct (binary_normalize prec emax n 0 false); discriminate.
Qed.

Lemma price_in_range_never_asserts (product : gmap string value) (x : float)
    (msg : string) :
  price_in_range product x = Err (Failure.AssertionError msg) -> False.
Proof.
  unfold price_in_range, dict_get, mbind, result_bind.
  destruct (int_le_float 0 x); [|discriminate].
  destruct (product !! "price") as [[| | | |]|]; discriminate.
Qed.

Ltac not_an_assertion H lemma :=
  split; [intros ? ?; discriminate|];
  split; [intros ? [= ->]; exact (lemma _ _ _ H)
         |intros ? [= ->]; exfalso; exact (lemma _ _ _ H)].

(** What [-O] does to [apply_discount]: a call that passed the assertion
    returns the same price; no call raises [AssertionError] any more; and a
    call that the assertion stopped now returns a price, one that is out of
    range. *)
Theorem optimize_drops_the_check (int_of_str : string -> option Z)
    (product : gmap string value) (discount : float) :
  (forall x : float,
     apply_discount int_of_str false product discount = Ok x ->
     apply_discount int_of_str true product discount = Ok x)
  /\ (forall msg : string,
        apply_discount int_of_str true product discount
        <> Err (Failure.AssertionError msg))
  /\ (forall msg : string,
        apply_discount int_of_str false product discount
        = Err (Failure.AssertionError msg) ->
        exists x : float,
          apply_discount int_of_str true product discount = Ok x
          /\ price_in_range product x = Ok false).
Proof.
  unfold apply_discount, dict_get, assert_, mbind, result_bind.
  destruct (product !! "price") as [v|] eqn:Hv;
    [|split; [|split]; intros; discriminate].
  destruct (int_ int_of_str v) as [n|e] eqn:Hint;
    [|not_an_assertion Hint int_never_asserts].
  destruct (int_times_float n (PrimFloat.sub 1 discount)) as [price|e] eqn:Hmul;
    [|not_an_assertion Hmul int_times_float_never_asserts].
  split; [|split].
  - intros x. destruct (price_in_range product price) as [[|]|e]; try discriminate.
    auto.
  - discriminate.
  - intros msg. destruct (price_in_range product price) as [[|]|e] eqn:Hrange;
      try discriminate.
    + intros _. eauto.
    + intros [= ->]. exfalso. exact (price_in_range_never_asserts _ _ _ Hrange).
Qed.

(** The two calls of lines 18-20: ten percent off 14900 is 13410.0; two
    hundred percent off raises [AssertionError], and under [-O] returns
    -14900.0 instead. *)
Theorem documented_discounts (int_of_str : string -> option Z) :
  (forall optimize : bool,
     apply_discount int_of_str optimize shoes ten_percent = Ok 13410%float)
  /\ apply_discount int_of_str false shoes 2%float
     = Err (Failure.AssertionError
              "Error: Discounted price bust be > 0 and < product price")
  /\ apply_discount int_of_str true shoes 2%float = Ok (-14900)%float.
Proof.
  split; [intros []; vm_compute; reflexivity|].
  split; vm_compute; reflexivity.
Qed.

(** ** [delete_product] *)

(** [delete_product] never returns normally, because
    [Store.has_product_id] answers [None] for every id.  With assertions
    enabled an assertion fails; under [-O] a user who is not an admin gets
    [AuthError] and an admin gets [ValueError]. *)
Theorem delete_product_always_raises (optimize : bool) (product_id : value)
    (user : User) (deleted : list value) :
  snd (delete_product optimize product_id user deleted)
  = Err (match optimize, truthy (is_admin user) with
         | false, false => Failure.AssertionError "Must be and admin"
         | false, true => Failure.AssertionError "Unknown product"
         | true, false => Failure.AuthError "Must be and admin to delete"
         | true, true => Failure.ValueError "Unknown product ID"
         end).
Proof.
  unfold delete_product, assert_.
  destruct optimize, (truthy (is_admin user)); reflexivity.
Qed.

(** With assertions enabled [delete_product] deletes nothing.  Under [-O]
    it deletes the product once, whoever the user is: the deletion comes
    before the check that raises [AuthError]. *)
Theorem delete_product_deletes_before_checking (optimize : bool) (product_id : value)
    (user : User) (deleted : list value) :
  fst (delete_product optimize product_id user deleted)
  = if optimize then deleted ++ [product_id] else deleted.
Proof.
  unfold delete_product, assert_.
  destruct optimize, (truthy (is_admin user)); reflexivity.
Qed.

(** ** The timed block *)






